(** * Smart-Resume-Parser: the extraction pipeline and the skill search

    A shallow embedding of [streamlit_app.py]: the two text cleaners, the
    regular expressions for e-mail addresses, phone numbers and skills, the
    education/experience line classifier, the record builder [parse_resume]
    and the ranking search [search_by_skill].

    A Python [str] is modelled as a [string] whose characters are the code
    points 0..255.  On that range the embedding follows Python exactly:
    [str.isspace] and the regex class [\s] hold for 9-13, 28-32, 133 and 160;
    [\d] holds for the ten ASCII digits; [\w] holds for the alphanumeric code
    points and the underscore; [str.lower] maps A-Z and the accented capitals
    192-222 (except 215) to their lower-case letters. *)

From Stdlib Require Import Ascii String Sorting.Sorted.
From stdpp Require Import gmap strings list.

(** ** Characters *)

Module Char.

Definition code (c : ascii) : nat := nat_of_ascii c.

Definition between (lo hi : nat) (c : ascii) : bool :=
  Nat.leb lo (code c) && Nat.leb (code c) hi.

(** A one-character class, a literal of a pattern. *)
Definition one (x : ascii) (c : ascii) : bool := Ascii.eqb c x.

(** [str.isspace] on one character, also the regex class [\s]. *)
Definition isspace (c : ascii) : bool :=
  between 9 13 c || between 28 32 c || Nat.eqb (code c) 133 || Nat.eqb (code c) 160.

(** The regex class [\d]. *)
Definition isdigit (c : ascii) : bool := between 48 57 c.

Definition isupper_ascii (c : ascii) : bool := between 65 90 c.
Definition islower_ascii (c : ascii) : bool := between 97 122 c.

(** The regex class [[A-Za-z]]. *)
Definition isalpha_ascii (c : ascii) : bool :=
  isupper_ascii c || islower_ascii c.

(** The regex class [\w]: alphanumeric code points and the underscore. *)
Definition isword (c : ascii) : bool :=
  isdigit c || isalpha_ascii c || Nat.eqb (code c) 95
  || Nat.eqb (code c) 170 || Nat.eqb (code c) 178 || Nat.eqb (code c) 179
  || Nat.eqb (code c) 181 || Nat.eqb (code c) 185 || Nat.eqb (code c) 186
  || between 188 190 c || between 192 214 c || between 216 246 c
  || between 248 255 c.

(** [str.lower] on one character. *)
Definition lower (c : ascii) : ascii :=
  if isupper_ascii c || between 192 214 c || between 216 222 c
  then ascii_of_nat (code c + 32)
  else c.

End Char.

(** ** Strings *)

Module Str.

(** [s.lower()] *)
Fixpoint lower (s : string) : string :=
  match s with
  | EmptyString => EmptyString
  | String c s' => String (Char.lower c) (lower s')
  end.

(** [s.lstrip()] *)
Fixpoint lstrip (s : string) : string :=
  match s with
  | EmptyString => EmptyString
  | String c s' => if Char.isspace c then lstrip s' else s
  end.

(** [s.rstrip()] *)
Fixpoint rstrip (s : string) : string :=
  match s with
  | EmptyString => EmptyString
  | String c s' =>
      match rstrip s' with
      | EmptyString => if Char.isspace c then EmptyString else String c EmptyString
      | r => String c r
      end
  end.

(** [s.strip()] *)
Definition strip (s : string) : string := rstrip (lstrip s).

(** [s.startswith(p)] *)
Definition startswith (s p : string) : bool := String.prefix p s.

(** [needle in hay] *)
Fixpoint contains (needle hay : string) : bool :=
  String.prefix needle hay ||
  match hay with
  | EmptyString => false
  | String _ hay' => contains needle hay'
  end.

(** [s.split(sep)] for a one-character separator. *)
Fixpoint split (sep : ascii) (s : string) : list string :=
  match s with
  | EmptyString => [EmptyString]
  | String c s' =>
      if Ascii.eqb c sep then EmptyString :: split sep s'
      else match split sep s' with
           | [] => [String c EmptyString]
           | w :: ws => String c w :: ws
           end
  end.

(** [sep.join(xs)] *)
Definition join (sep : string) (xs : list string) : string :=
  String.concat sep xs.

(** Truthiness of a string: [if s]. *)
Definition nonempty (s : string) : bool :=
  match s with EmptyString => false | _ => true end.

(** [s[:n]] *)
Fixpoint take (n : nat) (s : string) : string :=
  match n, s with
  | S n', String c s' => String c (take n' s')
  | _, _ => EmptyString
  end.

End Str.

(** ** Regular expressions

    The fragment of Python's [re] that the program uses: character classes,
    the word boundary, concatenation, a greedy optional group and a greedy
    bounded repetition of a character class.  Matching is the backtracking
    search of [re]: leftmost start, and at each start the first match in
    the order greedy alternatives are tried. *)

Module Re.

Inductive regex : Type :=
| Eps                                                 (* the empty pattern *)
| Chr (p : ascii -> bool)                             (* one character of a class *)
| Bnd                                                 (* \b *)
| Cat (r1 r2 : regex)                                 (* r1 r2 *)
| Opt (r : regex)                                     (* (?:r)? *)
| Rep (lo : nat) (hi : option nat) (p : ascii -> bool). (* [p]{lo,hi} *)

(** A continuation receives the character before the cursor, the text
    after the cursor and the number of characters matched so far. *)
Definition cont : Type := option ascii -> string -> nat -> option nat.

Definition wordy (c : option ascii) : bool :=
  match c with Some x => Char.isword x | None => false end.

Definition peek (s : string) : option ascii :=
  match s with String c _ => Some c | EmptyString => None end.

Definition room (hi : option nat) : bool :=
  match hi with Some O => false | _ => true end.

(** Greedy repetition: take one more character whenever allowed, and fall
    back to stopping here when the rest of the pattern fails. *)
Fixpoint rep (p : ascii -> bool) (lo : nat) (hi : option nat)
    (prev : option ascii) (s : string) (n : nat) (k : cont) {struct s}
    : option nat :=
  match s with
  | String c s' =>
      if p c && room hi then
        match rep p (Nat.pred lo) (Nat.pred <$> hi) (Some c) s' (S n) k with
        | Some r => Some r
        | None => match lo with O => k prev s n | S _ => None end
        end
      else match lo with O => k prev s n | S _ => None end
  | EmptyString => match lo with O => k prev s n | S _ => None end
  end.

Fixpoint run (r : regex) (prev : option ascii) (s : string) (n : nat)
    (k : cont) {struct r} : option nat :=
  match r with
  | Eps => k prev s n
  | Chr p =>
      match s with
      | String c s' => if p c then k (Some c) s' (S n) else None
      | EmptyString => None
      end
  | Bnd => if xorb (wordy prev) (wordy (peek s)) then k prev s n else None
  | Cat r1 r2 => run r1 prev s n (fun prev' s' n' => run r2 prev' s' n' k)
  | Opt r1 =>
      match run r1 prev s n k with
      | Some m => Some m
      | None => k prev s n
      end
  | Rep lo hi p => rep p lo hi prev s n k
  end.

(** The length of the match that starts at the cursor, if there is one. *)
Definition match_at (r : regex) (prev : option ascii) (s : string)
    : option nat :=
  run r prev s 0 (fun _ _ n => Some n).

Fixpoint search_from (r : regex) (prev : option ascii) (s : string) : bool :=
  match match_at r prev s with
  | Some _ => true
  | None =>
      match s with
      | String c s' => search_from r (Some c) s'
      | EmptyString => false
      end
  end.

(** Truthiness of [pattern.search(text)]. *)
Definition search (r : regex) (text : string) : bool :=
  search_from r None text.

(** [skip] counts the characters of the last match still to pass.  An
    empty match is reported and the scan moves on by one character; none
    of the patterns of the program matches the empty string. *)
Fixpoint findall_from (r : regex) (prev : option ascii) (s : string)
    (skip : nat) : list string :=
  match s with
  | EmptyString =>
      match skip, match_at r prev EmptyString with
      | O, Some _ => [EmptyString]
      | _, _ => []
      end
  | String c s' =>
      match skip with
      | S j => findall_from r (Some c) s' j
      | O =>
          match match_at r prev s with
          | Some (S l) => Str.take (S l) s :: findall_from r (Some c) s' l
          | Some O => EmptyString :: findall_from r (Some c) s' 0
          | None => findall_from r (Some c) s' 0
          end
      end
  end.

(** [pattern.findall(text)] for a pattern without capturing groups. *)
Definition findall (r : regex) (text : string) : list string :=
  findall_from r None text 0.

Fixpoint sub_from (r : regex) (repl : string) (prev : option ascii)
    (s : string) (skip : nat) : string :=
  match s with
  | EmptyString =>
      match skip, match_at r prev EmptyString with
      | O, Some _ => repl
      | _, _ => EmptyString
      end
  | String c s' =>
      match skip with
      | S j => sub_from r repl (Some c) s' j
      | O =>
          match match_at r prev s with
          | Some (S l) => repl +:+ sub_from r repl (Some c) s' l
          | Some O => repl +:+ String c (sub_from r repl (Some c) s' 0)
          | None => String c (sub_from r repl (Some c) s' 0)
          end
      end
  end.

(** [re.sub(pattern, repl, text)] for a replacement without group
    references. *)
Definition sub (r : regex) (repl text : string) : string :=
  sub_from r repl None text 0.

(** A literal under [re.IGNORECASE]; [re.escape] only protects the
    characters of the literal from being read as operators. *)
Fixpoint literal_ignorecase (s : string) : regex :=
  match s with
  | EmptyString => Eps
  | String c s' =>
      Cat (Chr (fun x => Ascii.eqb (Char.lower x) (Char.lower c)))
          (literal_ignorecase s')
  end.

End Re.

Import Re.

(** ** Cleaning

    The functions of the program test their argument with [isinstance]
    and return an empty value for one that is no string; here the type
    of the argument rules that branch out. *)

(** The pattern of a run of whitespace, one character or more. *)
Definition WHITESPACE_RUN : regex := Rep 1 None Char.isspace.

Definition clean_text (text : string) : string :=
  let text := Re.sub WHITESPACE_RUN " " text in
  Str.strip text.

Definition clean_text_keep_lines (text : string) : string :=
  let lines := Str.split "010" text in
  let cleaned_lines :=
    filter (fun ln => Str.nonempty ln = true)
      (map (fun ln => Str.strip (Re.sub WHITESPACE_RUN " " ln)) lines) in
  Str.join (String "010" EmptyString) cleaned_lines.

(** ** Basic info extraction *)

Definition email_local (c : ascii) : bool :=
  Char.isalpha_ascii c || Char.isdigit c
  || Char.one "." c || Char.one "_" c || Char.one "%" c
  || Char.one "+" c || Char.one "-" c.

Definition email_domain (c : ascii) : bool :=
  Char.isalpha_ascii c || Char.isdigit c || Char.one "." c || Char.one "-" c.

(** A local part of one or more characters, an at sign, a domain of one or
    more characters, a dot, and two or more ASCII letters. *)
Definition EMAIL_REGEX : regex :=
  Cat (Rep 1 None email_local)
  (Cat (Chr (Char.one "@"))
  (Cat (Rep 1 None email_domain)
  (Cat (Chr (Char.one "."))
       (Rep 2 None Char.isalpha_ascii)))).

Definition phone_separator (c : ascii) : bool :=
  Char.isspace c || Char.one "-" c.

(** An optional prefix (an optional plus sign, 91, any run of whitespace and
    hyphens), then a digit from 6 to 9 and exactly nine digits. *)
Definition PHONE_REGEX : regex :=
  Cat (Opt (Cat (Opt (Chr (Char.one "+")))
           (Cat (Chr (Char.one "9"))
           (Cat (Chr (Char.one "1"))
                (Rep 0 None phone_separator)))))
  (Cat (Chr (Char.between 54 57))
       (Rep 9 (Some 9) Char.isdigit)).

(** [list(dict.fromkeys(xs))]: a dict keeps a key at the place of its first
    insertion. *)
Definition dict_fromkeys (xs : list string) : list string :=
  foldl (fun d k => if bool_decide (k ∈ d) then d else d ++ [k]) [] xs.

Record basic_info : Type := {
  email : string;
  emails : list string;
  phone : string;
  phones : list string
}.

Definition first_or_not_found (matches : list string) : string :=
  match matches with
  | m :: _ => m
  | [] => "Not found"
  end.

Definition extract_basic_info (text : string) : basic_info :=
  let emails := Re.findall EMAIL_REGEX text in
  let phones := Re.findall PHONE_REGEX text in
  {| email := first_or_not_found emails;
     emails := dict_fromkeys emails;
     phone := first_or_not_found phones;
     phones := dict_fromkeys phones |}.

(** ** Sorting

    Python's [sorted] and [list.sort] are stable: elements with equal keys
    keep their order, also under [reverse=True].  [le] is the order of the
    keys in which the result is to be arranged. *)

Section StableSort.
Context {A K : Type} (key : A -> K) (le : K -> K -> bool).

Fixpoint insert_sorted (x : A) (l : list A) : list A :=
  match l with
  | [] => [x]
  | y :: l' =>
      if le (key x) (key y) then x :: y :: l' else y :: insert_sorted x l'
  end.

Definition stable_sort (l : list A) : list A := foldr insert_sorted [] l.
End StableSort.

(** ** Skills extraction *)

Definition SKILLS : list string := [
  (* Programming languages *)
  "python"; "java"; "c"; "c++"; "c#"; "javascript"; "typescript"; "php";
  "go"; "ruby"; "kotlin"; "swift";
  (* Web *)
  "html"; "css"; "react"; "angular"; "vue"; "node.js"; "django"; "flask";
  (* Data / ML *)
  "sql"; "mysql"; "postgresql"; "mongodb"; "pandas"; "numpy";
  "machine learning"; "deep learning"; "data analysis"; "data science";
  "tensorflow"; "pytorch"; "scikit-learn";
  (* Tools *)
  "excel"; "git"; "docker"; "kubernetes"; "linux"
].

(** The escaped skill between two word boundaries, compiled with
    [re.IGNORECASE]. *)
Definition skill_pattern (s : string) : regex :=
  Cat Bnd (Cat (Re.literal_ignorecase s) Bnd).

Fixpoint build_skill_patterns (skills : list string)
    : list (string * regex) * list (string * regex) :=
  match skills with
  | [] => ([], [])
  | s :: rest =>
      let '(multi, single) := build_skill_patterns rest in
      if Str.contains " " s
      then ((s, skill_pattern s) :: multi, single)
      else (multi, (s, skill_pattern s) :: single)
  end.

Definition MULTIWORD_SKILLS : list (string * regex) :=
  fst (build_skill_patterns SKILLS).

Definition SINGLEWORD_SKILLS : list (string * regex) :=
  snd (build_skill_patterns SKILLS).

(** One of the two loops of [extract_skills] over a pattern table. *)
Definition add_found (text : string) (patterns : list (string * regex))
    (found : gset string) : gset string :=
  foldl (fun found sp =>
           if Re.search sp.2 text then {[ sp.1 ]} ∪ found else found)
        found patterns.

Definition extract_skills (text : string) : list string :=
  let found := ∅ in
  (* 1) Check multi-word skills first *)
  let found := add_found text MULTIWORD_SKILLS found in
  (* 2) Then check single-word skills *)
  let found := add_found text SINGLEWORD_SKILLS found in
  stable_sort Str.lower String.leb (elements found).

(** ** Education & Experience extraction *)

Definition EDU_KEYWORDS : list string := [
  "education"; "academic"; "degree"; "degrees"; "college";
  "university"; "b.tech"; "btech"; "b.e"; "be"; "bachelor";
  "master"; "m.tech"; "mtech"; "bsc"; "msc"; "diploma"
].

Definition EXP_KEYWORDS : list string := [
  "experience"; "work experience"; "professional experience";
  "employment"; "internship"; "intern"; "company";
  "organization"; "worked"; "job"; "role"; "position"
].

(** [any(kw in lower for kw in keywords)] *)
Definition any_keyword (keywords : list string) (lower : string) : bool :=
  existsb (fun kw => Str.contains kw lower) keywords.

(** The loop over the lines, with the two lists it appends to. *)
Fixpoint classify (lines education_lines experience_lines : list string)
    : list string * list string :=
  match lines with
  | [] => (education_lines, experience_lines)
  | line :: rest =>
      let lower := Str.lower line in
      if String.length lower <? 3 then
        classify rest education_lines experience_lines
      else if any_keyword EDU_KEYWORDS lower then
        classify rest (education_lines ++ [line]) experience_lines
      else if any_keyword EXP_KEYWORDS lower then
        classify rest education_lines (experience_lines ++ [line])
      else
        classify rest education_lines experience_lines
  end.

Fixpoint dedup_loop (seq : list string) (seen : gset string)
    (out : list string) : list string :=
  match seq with
  | [] => out
  | x :: rest =>
      if bool_decide (x ∈ seen) then dedup_loop rest seen out
      else dedup_loop rest ({[ x ]} ∪ seen) (out ++ [x])
  end.

Definition dedup (seq : list string) : list string := dedup_loop seq ∅ [].

(** [[ln.strip() for ln in text.split(newline) if ln.strip()]] *)
Definition stripped_lines (text : string) : list string :=
  filter (fun ln => Str.nonempty ln = true)
    (map Str.strip (Str.split "010" text)).

Definition extract_sections (text : string) : list string * list string :=
  let lines := stripped_lines text in
  let '(education_lines, experience_lines) := classify lines [] [] in
  (dedup education_lines, dedup experience_lines).

(** ** Main parser *)

Record contact_info : Type := {
  contact_email : string;
  contact_phone : string;
  all_emails : list string;
  all_phones : list string
}.

Record summary_info : Type := {
  total_skills_found : nat;
  education_lines : nat;
  experience_lines : nat;
  raw_text_length : nat
}.

Record parsed_data : Type := {
  contact : contact_info;
  skills : list string;
  education : list string;
  experience : list string;
  summary : summary_info
}.

(** What [parse_resume] returns: the dict with the keys [error] and an empty
    [parsed_data], or the dict of the extracted fields. *)
Inductive parse_result : Type :=
| ParseError (error : string)
| Parsed (data : parsed_data).

Definition READ_ERROR_PREFIXES : list string :=
  ["PDF error:"; "DOCX error:"; "File not found!"; "Unsupported"].

(** [raw_text.startswith((...))] with a tuple of prefixes. *)
Definition is_read_error (raw_text : string) : bool :=
  existsb (Str.startswith raw_text) READ_ERROR_PREFIXES.

(** [parse_resume] after step 1: [raw_text] is what the document reader
    [read_resume] returned for the file.  The steps the parser calls are
    bound here so that a statement can range over them. *)
Section Pipeline.
Variable clean_text_step : string -> string.
Variable clean_text_keep_lines_step : string -> string.
Variable extract_basic_info_step : string -> basic_info.
Variable extract_skills_step : string -> list string.
Variable extract_sections_step : string -> list string * list string.

Definition parse_resume_with (raw_text : string) : parse_result :=
  if is_read_error raw_text then ParseError raw_text
  else
    (* Step 2: Two cleaning strategies *)
    let cleaned_text := clean_text_step raw_text in
    let cleaned_for_sections := clean_text_keep_lines_step raw_text in
    (* Step 3: Extract everything *)
    let basic_info := extract_basic_info_step cleaned_text in
    let skills := extract_skills_step cleaned_text in
    let '(education, experience) :=
      extract_sections_step cleaned_for_sections in
    (* Step 4: Structured output with metadata *)
    Parsed {|
      contact := {|
        contact_email := email basic_info;
        contact_phone := phone basic_info;
        all_emails := emails basic_info;
        all_phones := phones basic_info |};
      skills := skills;
      education := education;
      experience := experience;
      summary := {|
        total_skills_found := length skills;
        education_lines := length education;
        experience_lines := length experience;
        raw_text_length := String.length raw_text |}
    |}.
End Pipeline.

Definition parse_resume : string -> parse_result :=
  parse_resume_with clean_text clean_text_keep_lines
    extract_basic_info extract_skills extract_sections.

(** ** Skill search *)

Module Search.

Inductive kind : Type := exact | partial.

(** One entry of [matches]. *)
Record skill_match : Type := {
  skill : string;
  match_type : kind
}.

(** The [file_info] dict that the caller attaches to a parsed record.  Its
    size is a float the search only copies; the byte count it is computed
    from stands for it. *)
Record file_identity : Type := {
  name : string;
  size_bytes : nat
}.

(** A record of the collection, as far as the search reads it: each key
    may be absent from the dict. *)
Record resume : Type := {
  error : option string;
  skills : option (list string);
  file_info : option file_identity
}.

(** One entry of the result: the keys of [file_info] and the three keys
    the search adds after them. *)
Record hit : Type := {
  file : file_identity;
  matched_skills : list skill_match;
  total_skills : nat;
  match_count : nat
}.

(** A call returns a value or raises [KeyError]. *)
Inductive outcome (A : Type) : Type :=
| Returned (a : A)
| KeyError (key : string).
Arguments Returned {A} a.
Arguments KeyError {A} key.

(** [skill if case_sensitive else skill.lower().strip()] *)
Definition normalize_query (case_sensitive : bool) (skill : string) : string :=
  if case_sensitive then skill else Str.strip (Str.lower skill).

(** The body of the loop over [resume_skills]: the entry appended to
    [matches], if any. *)
Definition match_skill (case_sensitive partial_match : bool)
    (skill resume_skill : string) : option skill_match :=
  let resume_skill_clean :=
    if case_sensitive then resume_skill else Str.lower resume_skill in
  if partial_match then
    (* Flexible partial matching *)
    if Str.contains skill resume_skill_clean
       || Str.contains resume_skill_clean skill
    then Some {| skill := resume_skill;
                 match_type :=
                   if String.length skill <? String.length resume_skill_clean
                   then partial else exact |}
    else None
  else
    (* Exact matching only *)
    if String.eqb skill resume_skill_clean
    then Some {| skill := resume_skill; match_type := exact |}
    else None.

Definition matches_of (case_sensitive partial_match : bool)
    (skill : string) (r : resume) : list skill_match :=
  omap (match_skill case_sensitive partial_match skill)
       (default [] (skills r)).

(** The loop over [resumes], with the list [matched] it appends to. *)
Fixpoint collect (case_sensitive partial_match : bool) (skill : string)
    (resumes : list resume) (matched : list hit) : outcome (list hit) :=
  match resumes with
  | [] => Returned matched
  | r :: rest =>
      match error r with
      | Some _ => (* Skip failed parses *)
          collect case_sensitive partial_match skill rest matched
      | None =>
          let resume_skills := default [] (skills r) in
          let matches := matches_of case_sensitive partial_match skill r in
          match matches with
          | [] => collect case_sensitive partial_match skill rest matched
          | _ :: _ =>
              match file_info r with
              | None => KeyError "file_info"
              | Some fi =>
                  collect case_sensitive partial_match skill rest
                    (matched ++ [ {| file := fi;
                                     matched_skills := matches;
                                     total_skills := length resume_skills;
                                     match_count := length matches |} ])
              end
          end
      end
  end.

Definition search_by_skill (resumes : list resume) (skill : string)
    (case_sensitive partial_match : bool) : outcome (list hit) :=
  if negb (Str.nonempty skill) || bool_decide (resumes = []) then Returned []
  else
    let skill := normalize_query case_sensitive skill in
    match collect case_sensitive partial_match skill resumes [] with
    | KeyError k => KeyError k
    | Returned matched =>
        (* Sort by most matches first *)
        Returned (stable_sort match_count (fun a b => b <=? a) matched)
    end.

End Search.

(** ** Vocabulary of the statements *)

(** [needle] occurs in [hay] as a run of consecutive characters. *)
Definition occurs_in (needle hay : string) : Prop :=
  ∃ before after, hay = before +:+ needle +:+ after.

(** The position of the first occurrence of [x] in [l]. *)
Fixpoint first_index (x : string) (l : list string) : option nat :=
  match l with
  | [] => None
  | y :: l' => if String.eqb x y then Some 0 else S <$> first_index x l'
  end.

(** The elements of [all] stand in the order in which they first occur in
    [matches]. *)
Definition first_seen_order (matches all : list string) : Prop :=
  ∀ i j x y, all !! i = Some x → all !! j = Some y → i < j →
    ∃ p q, first_index x matches = Some p
           ∧ first_index y matches = Some q ∧ p < q.

(** The list is ordered by the lower-cased strings. *)
Definition sorted_case_insensitively (l : list string) : Prop :=
  StronglySorted
    (fun a b => String.leb (Str.lower a) (Str.lower b) = true) l.

(** The last character of a string. *)
Fixpoint last_char (s : string) : option ascii :=
  match s with
  | EmptyString => None
  | String c EmptyString => Some c
  | String _ s' => last_char s'
  end.

Definition ends_in_nonword (s : string) : bool :=
  match last_char s with
  | Some c => negb (Char.isword c)
  | None => false
  end.

(** Whitespace runs replaced by one space each, written as a recursion
    over the text; [in_run] tells that the cursor is inside a run. *)
Fixpoint collapse_from (in_run : bool) (s : string) : string :=
  match s with
  | EmptyString => EmptyString
  | String c s' =>
      if Char.isspace c then
        if in_run then collapse_from true s'
        else String " " (collapse_from true s')
      else String c (collapse_from false s')
  end.

(** The only whitespace of [s] is single spaces; with [after_space] set,
    [s] does not start with one either. *)
Fixpoint collapsed (after_space : bool) (s : string) : bool :=
  match s with
  | EmptyString => true
  | String c s' =>
      if Char.isspace c
      then Ascii.eqb c " " && negb after_space && collapsed true s'
      else collapsed false s'
  end.

(** A string that starts with no whitespace. *)
Definition starts_clean (s : string) : bool :=
  match s with
  | EmptyString => true
  | String c _ => negb (Char.isspace c)
  end.

(** The length of the longest prefix of [s] inside the class [p]. *)
Fixpoint span (p : ascii -> bool) (s : string) : nat :=
  match s with
  | String c s' => if p c then S (span p s') else 0
  | EmptyString => 0
  end.

(** The entry of the search result that stems from one record. *)
Definition hit_of (case_sensitive partial_match : bool) (skill : string)
    (r : Search.resume) : option Search.hit :=
  match Search.error r,
        Search.matches_of case_sensitive partial_match skill r,
        Search.file_info r with
  | None, (_ :: _) as matches, Some fi =>
      Some {| Search.file := fi;
              Search.matched_skills := matches;
              Search.total_skills := length (default [] (Search.skills r));
              Search.match_count := length matches |}
  | _, _, _ => None
  end.

(** The raw text of the worked scenario. *)
Definition SCENARIO_TEXT : string :=
  "Contact: jane.doe@example.com, +91 9876543210. Skills: Python, SQL. Education: B.Tech CS. Experience: Intern at Acme.".

(** What the loop behind [dict.fromkeys] maintains: after the keys [seen]
    have been inserted, the dict [d] holds each of them once, in the order
    of their first insertion. *)
Definition keeps_first_seen (seen d : list string) : Prop :=
  NoDup d ∧ (∀ x, x ∈ d ↔ x ∈ seen) ∧ first_seen_order seen d.

(** The character before the cursor once [x] has been read after [prev]. *)
Definition last_or (prev : option ascii) (x : string) : option ascii :=
  match last_char x with
  | Some c => Some c
  | None => prev
  end.

(** Somewhere in [text] a run of characters that lower-cases to [s] is
    followed at once by a word character. *)
Definition word_follows (s text : string) : Prop :=
  ∃ before x c after,
    text = before +:+ x +:+ String c after
    ∧ Str.lower x = s ∧ Char.isword c = true.

(** Every run of characters of [text] that lower-cases to [s] is followed by
    a character that is no word character, or by the end of the text. *)
Definition nonword_follows (s text : string) : Prop :=
  ∀ before x after,
    text = before +:+ x +:+ after → Str.lower x = s →
    after = EmptyString
    ∨ ∃ c after', after = String c after' ∧ Char.isword c = false.

(** The branch of the classifier loop that a line takes. *)
Definition goes_to_education (line : string) : bool :=
  (3 <=? String.length (Str.lower line))
  && any_keyword EDU_KEYWORDS (Str.lower line).

Definition goes_to_experience (line : string) : bool :=
  (3 <=? String.length (Str.lower line))
  && negb (any_keyword EDU_KEYWORDS (Str.lower line))
  && any_keyword EXP_KEYWORDS (Str.lower line).

(** The lower-cased line holds one of the keywords. *)
Definition has_keyword (keywords : list string) (line : string) : Prop :=
  ∃ kw, kw ∈ keywords ∧ occurs_in kw (Str.lower line).

(** The result is ranked: no entry has more matches than one before it. *)
Definition ranked (result : list Search.hit) : Prop :=
  StronglySorted
    (fun a b => Search.match_count b ≤ Search.match_count a) result.

(** The entries of the collection, in the order of the collection. *)
Definition hits_in_collection_order (case_sensitive partial_match : bool)
    (skill : string) (resumes : list Search.resume) : list Search.hit :=
  omap (hit_of case_sensitive partial_match
          (Search.normalize_query case_sensitive skill)) resumes.

(** Among the entries with any one match count, [result] has the entries of
    [hits] in the order of [hits]. *)
Definition ties_in_order_of (hits result : list Search.hit) : Prop :=
  ∀ n, filter (fun h => Search.match_count h = n) result
       = filter (fun h => Search.match_count h = n) hits.

(** ** More vocabulary: texts and words *)

(** Every character of [s] is in the class [p]. *)
Fixpoint all_chars (p : ascii -> bool) (s : string) : bool :=
  match s with
  | EmptyString => true
  | String c s' => p c && all_chars p s'
  end.

(** [s] is empty or starts with whitespace. *)
Definition starts_blank (s : string) : bool :=
  match s with
  | EmptyString => true
  | String c _ => Char.isspace c
  end.

(** [s.split()]: the maximal runs of characters that are no whitespace, in
    the order of the text. *)
Fixpoint words (s : string) : list string :=
  match s with
  | EmptyString => []
  | String c s' =>
      if Char.isspace c then words s'
      else if starts_blank s' then String c EmptyString :: words s'
      else match words s' with
           | w :: ws => String c w :: ws
           | [] => [String c EmptyString]
           end
  end.

(** A word: not empty and free of whitespace. *)
Definition wordlike (w : string) : Prop :=
  w ≠ EmptyString ∧ all_chars (fun c => negb (Char.isspace c)) w = true.

Definition is_newline (c : ascii) : bool := Ascii.eqb c "010".

(** The line break as a string. *)
Definition NEWLINE : string := String "010" EmptyString.

(** ** Document reader

    The reader opens a file with PyMuPDF or python-docx.  What those
    libraries deliver is taken as data: the texts of the pages of a PDF,
    the paragraphs and the tables of a DOCX file, or the message of the
    exception that opening or reading raises. *)

Module Reader.

(** The outcome of the body of a [try]. *)
Inductive tried (A : Type) : Type :=
| Done (a : A)
| Raised (message : string).
Arguments Done {A} a.
Arguments Raised {A} message.

(** A table is the list of its rows, a row the list of its cell texts. *)
Record docx_document : Type := {
  paragraphs : list string;
  tables : list (list (list string))
}.

(** What a path leads to: how each of the two libraries reads the file. *)
Record file : Type := {
  as_pdf : tried (list string);
  as_docx : tried docx_document
}.

Definition read_pdf (document : tried (list string)) : string :=
  match document with
  | Done pages =>
      foldl (fun text page => text +:+ page +:+ NEWLINE) EmptyString pages
  | Raised e => "PDF error: " +:+ e
  end.

Definition read_docx (document : tried docx_document) : string :=
  match document with
  | Done doc =>
      let text :=
        Str.join NEWLINE
          (filter (fun para => Str.nonempty (Str.strip para) = true)
             (paragraphs doc)) in
      foldl (fun text table =>
               foldl (fun text row => text +:+ " " +:+ Str.join " " row)
                 text table)
        text (tables doc)
  | Raised e => "DOCX error: " +:+ e
  end.

(** [extension] stands for [os.path.splitext(file_path)[1]] and
    [file_system] for the files that exist. *)
Section ReadResume.
Variable extension : string -> string.
Variable file_system : string -> option file.

Definition read_resume (file_path : string) : string :=
  match file_system file_path with
  | None => "File not found!"
  | Some f =>
      let ext := Str.lower (extension file_path) in
      if String.eqb ext ".pdf" then read_pdf (as_pdf f)
      else if String.eqb ext ".docx" then read_docx (as_docx f)
      else "Unsupported file type!"
  end.

(** [parse_resume(file_path)], from the path to the record. *)
Definition parse_resume_file (file_path : string) : parse_result :=
  parse_resume (read_resume file_path).
End ReadResume.

End Reader.

(** ** More vocabulary: the shape of the contact fields *)

(** A local part, an at sign, a domain, a dot and a top-level domain of
    two or more ASCII letters. *)
Definition email_shape (e : string) : Prop :=
  ∃ local domain tld,
    e = local +:+ "@" +:+ domain +:+ "." +:+ tld
    ∧ local ≠ EmptyString ∧ all_chars email_local local = true
    ∧ domain ≠ EmptyString ∧ all_chars email_domain domain = true
    ∧ 2 ≤ String.length tld ∧ all_chars Char.isalpha_ascii tld = true.

(** The country prefix of a phone number: nothing, or an optional plus
    sign, 91 and any number of separators. *)
Definition country_prefix (p : string) : Prop :=
  p = EmptyString
  ∨ ∃ plus separators,
      p = plus +:+ "91" +:+ separators
      ∧ (plus = EmptyString ∨ plus = "+"%string)
      ∧ all_chars phone_separator separators = true.

(** A country prefix and ten digits, the first of them from 6 to 9. *)
Definition phone_shape (p : string) : Prop :=
  ∃ prefix d ds,
    p = prefix +:+ String d ds
    ∧ country_prefix prefix
    ∧ Char.between 54 57 d = true
    ∧ String.length ds = 9 ∧ all_chars Char.isdigit ds = true.

(** ** More vocabulary: a skill at a place of the text *)

(** [s[n:]] *)
Fixpoint drop_chars (n : nat) (s : string) : string :=
  match n, s with
  | S n', String _ s' => drop_chars n' s'
  | _, _ => s
  end.

(** [t] starts with [s], up to the case of the letters. *)
Fixpoint ci_prefix (s t : string) : bool :=
  match s, t with
  | EmptyString, _ => true
  | String c s', String d t' =>
      Ascii.eqb (Char.lower d) (Char.lower c) && ci_prefix s' t'
  | String _ _, EmptyString => false
  end.

(** The skill [s] stands at the cursor as a whole word: a word boundary,
    the letters of [s] in any case, and a word boundary. *)
Definition skill_at (s : string) (prev : option ascii) (t : string) : bool :=
  xorb (Re.wordy prev) (Re.wordy (Re.peek t))
  && ci_prefix s t
  && xorb (Re.wordy (last_or prev (Str.take (String.length s) t)))
          (Re.wordy (Re.peek (drop_chars (String.length s) t))).

(** * Properties *)

(** ** Strings *)

Section StringFacts.

Lemma append_nil_l (s : string) : "" +:+ s = s.
Proof. reflexivity. Qed.

Lemma append_cons (c : ascii) (s t : string) :
  String c s +:+ t = String c (s +:+ t).
Proof. reflexivity. Qed.

Lemma append_empty_r (s : string) : s +:+ "" = s.
Proof.
  induction s as [|c s IH]; [done|]. by rewrite append_cons, IH.
Qed.

Lemma append_assoc (a b c : string) : (a +:+ b) +:+ c = a +:+ b +:+ c.
Proof.
  induction a as [|x a IH]; [done|]. by rewrite !append_cons, IH.
Qed.

Lemma length_append (a b : string) :
  String.length (a +:+ b) = String.length a + String.length b.
Proof.
  induction a as [|x a IH]; [done|]. rewrite append_cons. simpl. by rewrite IH.
Qed.

Lemma length_lower (s : string) :
  String.length (Str.lower s) = String.length s.
Proof. induction s as [|c s IH]; simpl; [done | by rewrite IH]. Qed.

Lemma prefix_spec (p s : string) :
  String.prefix p s = true ↔ ∃ rest, s = p +:+ rest.
Proof.
  revert s. induction p as [|c p IH]; intros s; simpl.
  - destruct s; split; eauto.
  - destruct s as [|d s]; simpl.
    + split; [done | intros [rest H]; discriminate].
    + destruct (ascii_dec c d) as [->|Hne].
      * rewrite IH. split; intros [rest H]; exists rest;
          rewrite append_cons in *; congruence.
      * split; [done | intros [rest H]; rewrite append_cons in H; congruence].
Qed.

Lemma contains_cons (needle : string) (c : ascii) (hay : string) :
  Str.contains needle (String c hay)
  = String.prefix needle (String c hay) || Str.contains needle hay.
Proof. reflexivity. Qed.

Lemma contains_nil (needle : string) :
  Str.contains needle "" = String.prefix needle "" || false.
Proof. reflexivity. Qed.

Lemma contains_spec (needle hay : string) :
  Str.contains needle hay = true ↔ occurs_in needle hay.
Proof.
  unfold occurs_in. induction hay as [|c hay IH].
  - rewrite contains_nil, orb_false_r, prefix_spec. split.
    + intros [rest H]. by exists ""%string, rest.
    + intros [[|x before] [after H]]; [eauto | discriminate].
  - rewrite contains_cons, orb_true_iff, IH, prefix_spec. split.
    + intros [[rest H] | (before & after & H)].
      * by exists ""%string, rest.
      * exists (String c before), after. by rewrite append_cons, H.
    + intros [[|x before] [after H]].
      * left. eauto.
      * right. exists before, after. rewrite append_cons in H. congruence.
Qed.

Lemma occurs_in_length (needle hay : string) :
  occurs_in needle hay → String.length needle ≤ String.length hay.
Proof. intros (a & b & ->). rewrite !length_append. lia. Qed.

End StringFacts.

(** ** The flat normalizer *)

Section Cleaning.

Lemma rep_span (p : ascii -> bool) (s : string) :
  ∀ lo prev n,
    Re.rep p lo None prev s n (fun _ _ m => Some m)
    = if lo <=? span p s then Some (n + span p s) else None.
Proof.
  induction s as [|c s IH]; intros lo prev n; simpl.
  - destruct lo; simpl; [f_equal; lia | done].
  - destruct (p c); simpl.
    + rewrite IH. destruct lo as [|lo]; simpl.
      * f_equal. lia.
      * destruct (lo <=? span p s); [f_equal; lia | done].
    + destruct lo; [f_equal; lia | done].
Qed.

Lemma match_at_whitespace (prev : option ascii) (s : string) :
  Re.match_at WHITESPACE_RUN prev s
  = if 1 <=? span Char.isspace s then Some (span Char.isspace s) else None.
Proof. unfold Re.match_at, WHITESPACE_RUN. simpl. by rewrite rep_span. Qed.

Lemma sub_whitespace (s : string) :
  ∀ prev,
    Re.sub_from WHITESPACE_RUN " " prev s 0 = collapse_from false s
    ∧ Re.sub_from WHITESPACE_RUN " " prev s (span Char.isspace s)
      = collapse_from true s.
Proof.
  induction s as [|c s IH]; intros prev.
  - split; reflexivity.
  - assert (H0 : Re.sub_from WHITESPACE_RUN " " prev (String c s) 0
                 = collapse_from false (String c s)).
    { cbn [Re.sub_from collapse_from]. rewrite match_at_whitespace.
      cbn [span]. destruct (Char.isspace c) eqn:Hc.
      - cbn [Nat.leb]. rewrite append_cons, append_nil_l.
        f_equal. apply IH.
      - cbn [Nat.leb]. f_equal. apply IH. }
    split; [exact H0|].
    cbn [span]. destruct (Char.isspace c) eqn:Hc.
    + cbn [Re.sub_from collapse_from]. rewrite Hc. apply IH.
    + rewrite H0. cbn [collapse_from]. by rewrite Hc.
Qed.

Lemma clean_text_collapse (text : string) :
  clean_text text = Str.strip (collapse_from false text).
Proof.
  unfold clean_text, Re.sub. f_equal. apply (sub_whitespace text None).
Qed.

Lemma collapse_collapsed (s : string) :
  ∀ b, collapsed b (collapse_from b s) = true.
Proof.
  induction s as [|c s IH]; intros b; simpl; [done|].
  destruct (Char.isspace c) eqn:Hc.
  - destruct b; [apply IH|]. simpl. apply IH.
  - simpl. rewrite Hc. apply IH.
Qed.

Lemma collapsed_fixed (s : string) :
  ∀ b, collapsed b s = true → collapse_from b s = s.
Proof.
  induction s as [|c s IH]; intros b; simpl; [done|].
  destruct (Char.isspace c) eqn:Hc.
  - rewrite !andb_true_iff, negb_true_iff.
    intros [[Heq ->] Hs]. apply Ascii.eqb_eq in Heq. subst c.
    f_equal. by apply IH.
  - intros Hs. f_equal. by apply IH.
Qed.

Lemma collapsed_weaken (s : string) (b : bool) :
  collapsed b s = true → collapsed false s = true.
Proof.
  destruct s as [|c s]; simpl; [done|].
  destruct (Char.isspace c); [|done].
  rewrite !andb_true_iff. intros [[-> _] ->]. done.
Qed.

Lemma collapsed_lstrip (s : string) :
  ∀ b, collapsed b s = true → collapsed false (Str.lstrip s) = true.
Proof.
  induction s as [|c s IH]; intros b; [done|].
  cbn [Str.lstrip]. destruct (Char.isspace c) eqn:Hc.
  - cbn [collapsed]. rewrite Hc, !andb_true_iff. intros [_ Hs]. by eapply IH.
  - apply collapsed_weaken.
Qed.

Lemma collapsed_rstrip (s : string) :
  ∀ b, collapsed b s = true → collapsed b (Str.rstrip s) = true.
Proof.
  induction s as [|c s IH]; intros b; [done|].
  cbn [Str.rstrip collapsed].
  destruct (Char.isspace c) eqn:Hc.
  - rewrite !andb_true_iff. intros [[Heq Hb] Hs].
    specialize (IH true Hs).
    destruct (Str.rstrip s) as [|d r]; [done|].
    cbn [collapsed]. rewrite Hc, Heq, Hb. exact IH.
  - intros Hs. specialize (IH false Hs).
    destruct (Str.rstrip s) as [|d r]; cbn [collapsed]; by rewrite Hc.
Qed.

Lemma lstrip_starts_clean (s : string) : starts_clean (Str.lstrip s) = true.
Proof.
  induction s as [|c s IH]; [done|]. cbn [Str.lstrip].
  destruct (Char.isspace c) eqn:Hc; [done|]. simpl. by rewrite Hc.
Qed.

Lemma lstrip_fixed (s : string) : starts_clean s = true → Str.lstrip s = s.
Proof.
  destruct s as [|c s]; [done|]. simpl. by destruct (Char.isspace c).
Qed.

Lemma rstrip_starts_clean (s : string) :
  starts_clean s = true → starts_clean (Str.rstrip s) = true.
Proof.
  destruct s as [|c s]; [done|]. cbn [Str.rstrip starts_clean].
  intros Hc. destruct (Str.rstrip s); [|exact Hc].
  destruct (Char.isspace c) eqn:E; simpl; [done | by rewrite E].
Qed.

Lemma rstrip_idempotent (s : string) :
  Str.rstrip (Str.rstrip s) = Str.rstrip s.
Proof.
  induction s as [|c s IH]; [done|]. cbn [Str.rstrip].
  destruct (Str.rstrip s) as [|d r] eqn:Hr.
  - destruct (Char.isspace c) eqn:Hc; [done|]. cbn [Str.rstrip]. by rewrite Hc.
  - cbn [Str.rstrip] in *. by rewrite IH.
Qed.

Lemma strip_idempotent (s : string) : Str.strip (Str.strip s) = Str.strip s.
Proof.
  unfold Str.strip.
  rewrite (lstrip_fixed (Str.rstrip (Str.lstrip s))).
  - apply rstrip_idempotent.
  - apply rstrip_starts_clean, lstrip_starts_clean.
Qed.

Lemma collapsed_strip (s : string) :
  collapsed false s = true → collapsed false (Str.strip s) = true.
Proof.
  intros Hs. unfold Str.strip. apply collapsed_rstrip.
  by apply (collapsed_lstrip s false).
Qed.

(** C9. The flat normalizer is idempotent: cleaning a text that is already
    clean returns it unchanged, [clean_text (clean_text t) = clean_text t]
    for every string [t]. *)
Theorem clean_text_idempotent (t : string) :
  clean_text (clean_text t) = clean_text t.
Proof.
  rewrite (clean_text_collapse (clean_text t)), (clean_text_collapse t).
  rewrite (collapsed_fixed (Str.strip (collapse_from false t)) false).
  - apply strip_idempotent.
  - apply collapsed_strip, collapse_collapsed.
Qed.

End Cleaning.

(** ** Contact extraction *)

Section FirstSeen.

Local Abbreviation insert_key :=
  (fun (d : list string) (k : string) =>
     if bool_decide (k ∈ d) then d else d ++ [k]).

Lemma first_index_lt (x : string) (l : list string) (p : nat) :
  first_index x l = Some p → p < length l.
Proof.
  revert p. induction l as [|y l IH]; intros p; simpl; [done|].
  destruct (String.eqb x y).
  - intros [= <-]. lia.
  - destruct (first_index x l) as [q|]; simpl; [|done].
    intros [= <-]. specialize (IH q eq_refl). lia.
Qed.

Lemma first_index_elem (x : string) (l : list string) :
  x ∈ l → ∃ p, first_index x l = Some p.
Proof.
  induction l as [|y l IH]; simpl.
  - by intros ?%elem_of_nil.
  - intros Hx. destruct (String.eqb_spec x y) as [->|Hne]; [eauto|].
    apply elem_of_cons in Hx as [?|Hx]; [done|].
    destruct (IH Hx) as [p ->]. simpl. eauto.
Qed.

Lemma first_index_app_l (x : string) (l k : list string) :
  x ∈ l → first_index x (l ++ k) = first_index x l.
Proof.
  induction l as [|y l IH]; simpl.
  - by intros ?%elem_of_nil.
  - intros Hx. destruct (String.eqb_spec x y) as [->|Hne]; [done|].
    apply elem_of_cons in Hx as [?|Hx]; [done|]. by rewrite IH.
Qed.

Lemma first_index_fresh (x : string) (l k : list string) :
  x ∉ l → first_index x (l ++ x :: k) = Some (length l).
Proof.
  induction l as [|y l IH]; simpl.
  - intros _. by rewrite String.eqb_refl.
  - intros Hx. apply not_elem_of_cons in Hx as [Hne Hx].
    destruct (String.eqb_spec x y) as [->|_]; [done|].
    by rewrite (IH Hx).
Qed.

Lemma keeps_first_seen_step (seen d : list string) (k : string) :
  keeps_first_seen seen d → keeps_first_seen (seen ++ [k]) (insert_key d k).
Proof.
  intros (Hnd & Hel & Hord). simpl. case_bool_decide as Hk.
  - split_and!; [done | |].
    + intros x. rewrite elem_of_app, list_elem_of_singleton, Hel.
      split; [tauto|]. intros [?| ->]; [done | by apply Hel].
    + intros i j x y Hi Hj Hij.
      destruct (Hord i j x y Hi Hj Hij) as (p & q & Hp & Hq & Hpq).
      exists p, q. rewrite !first_index_app_l; [done| |].
      * apply Hel, list_elem_of_lookup. eauto.
      * apply Hel, list_elem_of_lookup. eauto.
  - split_and!.
    + apply NoDup_app. split_and!; [done | | apply NoDup_singleton].
      intros x Hx ->%list_elem_of_singleton. done.
    + intros x. rewrite !elem_of_app, Hel. done.
    + intros i j x y Hi Hj Hij.
      destruct (decide (j < length d)) as [Hlt|Hge].
      * rewrite lookup_app_l in Hi by lia. rewrite lookup_app_l in Hj by lia.
        destruct (Hord i j x y Hi Hj Hij) as (p & q & Hp & Hq & Hpq).
        exists p, q. rewrite !first_index_app_l; [done| |].
        -- apply Hel, list_elem_of_lookup. eauto.
        -- apply Hel, list_elem_of_lookup. eauto.
      * assert (j = length d) as ->.
        { apply lookup_lt_Some in Hj. rewrite length_app in Hj.
          simpl in Hj. lia. }
        rewrite lookup_app_l in Hi by lia.
        rewrite list_lookup_middle in Hj by done. injection Hj as <-.
        assert (Hx : x ∈ seen) by (apply Hel, list_elem_of_lookup; eauto).
        destruct (first_index_elem x seen Hx) as [p Hp].
        exists p, (length seen). split_and!.
        -- by rewrite first_index_app_l.
        -- apply first_index_fresh. by rewrite <- Hel.
        -- by apply first_index_lt in Hp.
Qed.

Lemma keeps_first_seen_foldl (xs : list string) :
  ∀ seen d, keeps_first_seen seen d →
            keeps_first_seen (seen ++ xs) (foldl insert_key d xs).
Proof.
  induction xs as [|k xs IH]; intros seen d H.
  - by rewrite app_nil_r.
  - cbn [foldl]. replace (seen ++ k :: xs) with ((seen ++ [k]) ++ xs)
      by (by rewrite <- app_assoc).
    apply IH. by apply keeps_first_seen_step.
Qed.

Lemma dict_fromkeys_keeps (xs : list string) :
  keeps_first_seen xs (dict_fromkeys xs).
Proof.
  apply (keeps_first_seen_foldl xs [] []).
  split_and!; [constructor | done |]. intros i j x y Hi. done.
Qed.

Lemma insert_key_foldl_prefix (xs : list string) :
  ∀ d, ∃ t, foldl insert_key d xs = d ++ t.
Proof.
  induction xs as [|k xs IH]; intros d; cbn [foldl].
  - exists []. by rewrite app_nil_r.
  - case_bool_decide; [apply IH|].
    destruct (IH (d ++ [k])) as [t ->]. exists (k :: t).
    by rewrite <- app_assoc.
Qed.

Lemma dict_fromkeys_head (xs : list string) :
  first_or_not_found xs = first_or_not_found (dict_fromkeys xs).
Proof.
  destruct xs as [|m xs]; [done|]. unfold dict_fromkeys. cbn [foldl].
  rewrite bool_decide_false by apply not_elem_of_nil.
  destruct (insert_key_foldl_prefix xs ([] ++ [m])) as [t ->]. done.
Qed.

(** C3. For every text, the [emails] and [phones] lists of
    [extract_basic_info] hold no duplicates, hold exactly the strings the
    pattern matched, and keep them in the order of their first match in the
    text; the primary [email] (resp. [phone]) is the first element of that
    list when the list is non-empty and the sentinel "Not found" when it is
    empty. *)
Theorem extract_basic_info_first_seen (text : string) :
  let info := extract_basic_info text in
  (NoDup (emails info)
   ∧ (∀ x, x ∈ emails info ↔ x ∈ Re.findall EMAIL_REGEX text)
   ∧ first_seen_order (Re.findall EMAIL_REGEX text) (emails info)
   ∧ email info = match emails info with m :: _ => m | [] => "Not found" end)
  ∧ (NoDup (phones info)
     ∧ (∀ x, x ∈ phones info ↔ x ∈ Re.findall PHONE_REGEX text)
     ∧ first_seen_order (Re.findall PHONE_REGEX text) (phones info)
     ∧ phone info = match phones info with m :: _ => m | [] => "Not found" end).
Proof.
  simpl. split.
  - destruct (dict_fromkeys_keeps (Re.findall EMAIL_REGEX text))
      as (Hnd & Hel & Hord).
    split_and!; [done | done | done |]. apply dict_fromkeys_head.
  - destruct (dict_fromkeys_keeps (Re.findall PHONE_REGEX text))
      as (Hnd & Hel & Hord).
    split_and!; [done | done | done |]. apply dict_fromkeys_head.
Qed.

End FirstSeen.

(** ** Stable sorting *)

Section StableSortFacts.
Context {A K : Type} (key : A -> K) (le : K -> K -> bool).

Local Abbreviation ordered := (fun a b : A => le (key a) (key b) = true).

Lemma insert_sorted_perm (x : A) (l : list A) :
  insert_sorted key le x l ≡ₚ x :: l.
Proof.
  induction l as [|y l IH]; simpl; [done|].
  destruct (le (key x) (key y)); [done|].
  rewrite IH. apply Permutation_swap.
Qed.

Lemma stable_sort_perm (l : list A) : stable_sort key le l ≡ₚ l.
Proof.
  induction l as [|x l IH]; simpl; [done|].
  by rewrite insert_sorted_perm, IH.
Qed.

Lemma stable_sort_elem (x : A) (l : list A) :
  x ∈ stable_sort key le l ↔ x ∈ l.
Proof. by rewrite stable_sort_perm. Qed.

Hypothesis le_total : ∀ a b, le a b = true ∨ le b a = true.
Hypothesis le_trans : ∀ a b c, le a b = true → le b c = true → le a c = true.

Lemma insert_sorted_sorted (x : A) (l : list A) :
  StronglySorted ordered l → StronglySorted ordered (insert_sorted key le x l).
Proof.
  induction 1 as [|y l Hl IH Hy]; simpl.
  - repeat constructor.
  - destruct (le (key x) (key y)) eqn:Hxy.
    + constructor; [by constructor|].
      constructor; [done|].
      eapply Forall_impl; [exact Hy|]. intros z Hz. simpl in *. eauto.
    + constructor; [done|].
      rewrite insert_sorted_perm. constructor; [|done].
      destruct (le_total (key x) (key y)); congruence.
Qed.

Lemma stable_sort_sorted (l : list A) :
  StronglySorted ordered (stable_sort key le l).
Proof.
  induction l as [|x l IH]; simpl; [constructor|].
  by apply insert_sorted_sorted.
Qed.

Context `{EqDecision K}.

Lemma insert_sorted_filter (k : K) (x : A) (l : list A) :
  filter (fun a => key a = k) (insert_sorted key le x l)
  = filter (fun a => key a = k) (x :: l).
Proof.
  induction l as [|y l IH]; simpl; [done|].
  destruct (le (key x) (key y)) eqn:Hxy; [done|].
  rewrite (filter_cons _ y), IH, !filter_cons.
  destruct (decide (key y = k)) as [Hy|Hy], (decide (key x = k)) as [Hx|Hx];
    try done.
  destruct (le_total (key x) (key y)); congruence.
Qed.

(** Stability: the elements with one key keep their order. *)
Lemma stable_sort_stable (k : K) (l : list A) :
  filter (fun a => key a = k) (stable_sort key le l)
  = filter (fun a => key a = k) l.
Proof.
  induction l as [|x l IH]; simpl; [done|].
  by rewrite insert_sorted_filter, !filter_cons, IH.
Qed.

End StableSortFacts.

(** ** Skill extraction *)

Section Skills.

Lemma compare_not_gt_trans (s1 : string) :
  ∀ s2 s3, String.compare s1 s2 ≠ Gt → String.compare s2 s3 ≠ Gt →
           String.compare s1 s3 ≠ Gt.
Proof.
  induction s1 as [|a s1 IH]; intros [|b s2] [|c s3]; simpl; try done.
  unfold Ascii.compare.
  destruct (N.compare_spec (N_of_ascii a) (N_of_ascii b)) as [Hab|Hab|Hab],
           (N.compare_spec (N_of_ascii b) (N_of_ascii c)) as [Hbc|Hbc|Hbc],
           (N.compare_spec (N_of_ascii a) (N_of_ascii c)) as [Hac|Hac|Hac];
    try done; try lia.
  apply IH.
Qed.

Lemma leb_trans (s1 s2 s3 : string) :
  String.leb s1 s2 = true → String.leb s2 s3 = true → String.leb s1 s3 = true.
Proof.
  unfold String.leb. intros H12 H23.
  pose proof (compare_not_gt_trans s1 s2 s3) as H.
  destruct (String.compare s1 s2), (String.compare s2 s3),
           (String.compare s1 s3); try done; exfalso; by apply H.
Qed.

Lemma add_found_elem (text : string) (patterns : list (string * regex)) :
  ∀ found x,
    x ∈ add_found text patterns found ↔
    x ∈ found ∨ ∃ r, (x, r) ∈ patterns ∧ Re.search r text = true.
Proof.
  unfold add_found.
  induction patterns as [|[s r] patterns IH]; intros found x; cbn [foldl].
  - split; [by left|]. intros [?|(r & ?%elem_of_nil & _)]; done.
  - rewrite IH. simpl. destruct (Re.search r text) eqn:Hr.
    + rewrite elem_of_union, elem_of_singleton. split.
      * intros [[->|?]|(r' & ? & ?)]; [right | by left | right].
        -- exists r. split; [left | done].
        -- exists r'. split; [by right | done].
      * intros [?|(r' & [Heq|?]%elem_of_cons & ?)]; [tauto | | ].
        -- injection Heq as -> ->. tauto.
        -- right. eauto.
    + split.
      * intros [?|(r' & ? & ?)]; [by left | right].
        exists r'. split; [by right | done].
      * intros [?|(r' & [Heq|?]%elem_of_cons & ?)]; [tauto | | ].
        -- injection Heq as -> ->. congruence.
        -- right. eauto.
Qed.

Lemma build_skill_patterns_elem (skills : list string) (s : string) (r : regex) :
  (s, r) ∈ (build_skill_patterns skills).1
  ∨ (s, r) ∈ (build_skill_patterns skills).2
  ↔ s ∈ skills ∧ r = skill_pattern s.
Proof.
  induction skills as [|t skills IH]; simpl.
  - split; [intros [?%elem_of_nil|?%elem_of_nil]; done|].
    by intros [?%elem_of_nil _].
  - destruct (build_skill_patterns skills) as [multi single]. simpl in IH.
    destruct IH as [IH1 IH2].
    destruct (Str.contains " " t); simpl;
      rewrite !elem_of_cons, pair_equal_spec; intuition (subst; auto).
Qed.

Lemma extract_skills_elem (text s : string) :
  s ∈ extract_skills text ↔
  s ∈ SKILLS ∧ Re.search (skill_pattern s) text = true.
Proof.
  unfold extract_skills. rewrite stable_sort_elem, elem_of_elements.
  rewrite !add_found_elem, elem_of_empty.
  unfold MULTIWORD_SKILLS, SINGLEWORD_SKILLS. split.
  - intros [[[]|(r & Hr & Hs)]|(r & Hr & Hs)].
    + destruct (proj1 (build_skill_patterns_elem SKILLS s r) (or_introl Hr))
        as [? ->]. done.
    + destruct (proj1 (build_skill_patterns_elem SKILLS s r) (or_intror Hr))
        as [? ->]. done.
  - intros [Hs Hr].
    destruct (proj2 (build_skill_patterns_elem SKILLS s _) (conj Hs eq_refl));
      eauto.
Qed.

(** C4. For every text, each skill that [extract_skills] returns belongs
    to the fixed vocabulary [SKILLS], no skill is returned twice, and the
    list is sorted by the lower-cased names. *)
Theorem extract_skills_vocabulary_closed (text : string) :
  (∀ s, s ∈ extract_skills text → s ∈ SKILLS)
  ∧ NoDup (extract_skills text)
  ∧ sorted_case_insensitively (extract_skills text).
Proof.
  split_and!.
  - intros s Hs. by apply extract_skills_elem in Hs as [? _].
  - unfold extract_skills. rewrite stable_sort_perm. apply NoDup_elements.
  - unfold sorted_case_insensitively, extract_skills.
    apply (stable_sort_sorted Str.lower String.leb).
    + intros a b. apply String.leb_total.
    + intros a b c. apply leb_trans.
Qed.

End Skills.

(** ** Skills that end in a character outside the word class *)

Section WordBoundary.

Lemma isword_lower (c : ascii) : Char.isword (Char.lower c) = Char.isword c.
Proof. destruct c as [[] [] [] [] [] [] [] []]; vm_compute; reflexivity. Qed.

Lemma last_char_cons (c : ascii) (s : string) :
  last_char (String c s) = Some (default c (last_char s)).
Proof.
  revert c. induction s as [|d s IH]; intros c; [done|].
  change (last_char (String c (String d s))) with (last_char (String d s)).
  by rewrite IH.
Qed.

Lemma last_char_lower (s : string) :
  last_char (Str.lower s) = Char.lower <$> last_char s.
Proof.
  induction s as [|c s IH]; [done|].
  cbn [Str.lower]. rewrite !last_char_cons, IH.
  by destruct (last_char s).
Qed.

Lemma last_or_cons (prev : option ascii) (c : ascii) (x : string) :
  last_or (Some c) x = last_or prev (String c x).
Proof.
  unfold last_or. rewrite last_char_cons. by destruct (last_char x).
Qed.

(** A literal matches a run of characters equal to it up to case, and hands
    the rest of the text to what follows it in the pattern. *)
Lemma run_literal (s : string) :
  ∀ prev t n k m,
    Re.run (Re.literal_ignorecase s) prev t n k = Some m →
    ∃ x rest, t = x +:+ rest ∧ Str.lower x = Str.lower s
              ∧ k (last_or prev x) rest (n + String.length s) = Some m.
Proof.
  induction s as [|c s IH]; intros prev t n k m; simpl.
  - intros Hk. exists ""%string, t. rewrite Nat.add_0_r. done.
  - destruct t as [|d t]; [done|].
    destruct (Ascii.eqb_spec (Char.lower d) (Char.lower c)) as [Hd|]; [|done].
    intros (x & rest & -> & Hx & Hk)%IH.
    exists (String d x), rest. rewrite <- last_or_cons.
    rewrite Nat.add_succ_r. split_and!; [done | | done].
    simpl. by rewrite Hd, Hx.
Qed.

Lemma search_from_occurs (r : regex) (s : string) :
  ∀ prev, Re.search_from r prev s = true →
          ∃ before after prev' n,
            s = before +:+ after ∧ Re.match_at r prev' after = Some n.
Proof.
  induction s as [|c s IH]; intros prev; simpl.
  - destruct (Re.match_at r prev "") as [n|] eqn:Hm; [|done].
    intros _. by exists ""%string, ""%string, prev, n.
  - destruct (Re.match_at r prev (String c s)) as [n|] eqn:Hm.
    + intros _. by exists ""%string, (String c s), prev, n.
    + intros (before & after & prev' & n & -> & Hn)%IH.
      by exists (String c before), after, prev', n.
Qed.

Lemma skill_pattern_match (s : string) (prev : option ascii) (t : string)
    (n : nat) :
  ends_in_nonword s = true →
  Re.match_at (skill_pattern s) prev t = Some n →
  ∃ x c rest, t = x +:+ String c rest
              ∧ Str.lower x = Str.lower s ∧ Char.isword c = true.
Proof.
  unfold ends_in_nonword, Re.match_at, skill_pattern. intros Hs. simpl.
  destruct (xorb _ _); [|done].
  intros (x & rest & -> & Hx & Hk)%run_literal.
  assert (Hlast : Re.wordy (last_or prev x) = false).
  { assert (H : last_char (Str.lower x) = last_char (Str.lower s))
      by (by rewrite Hx).
    rewrite !last_char_lower in H. unfold last_or.
    destruct (last_char s) as [c|]; [|done].
    destruct (last_char x) as [d|]; [|done].
    injection H as H. simpl.
    rewrite <- isword_lower, H, isword_lower.
    by apply negb_true_iff. }
  rewrite Hlast in Hk. destruct rest as [|c rest]; [done|].
  simpl in Hk. destruct (Char.isword c) eqn:Hc; [|done].
  by exists x, c, rest.
Qed.

Lemma extract_skills_word_follows (text s : string) :
  ends_in_nonword s = true → Str.lower s = s →
  s ∈ extract_skills text → word_follows s text.
Proof.
  intros Hs Hlow [_ Hr]%extract_skills_elem.
  apply search_from_occurs in Hr as (before & after & prev & n & -> & Hn).
  apply skill_pattern_match in Hn as (x & c & rest & -> & Hx & Hc); [|done].
  exists before, x, c, rest. by rewrite Hx, Hlow.
Qed.

(** C10. The vocabulary skills that end in a character outside the word
    class are c++ and c#.  Either of them is reported for a text only if
    the text holds it, in any case, immediately followed by a word
    character (a letter, a digit or an underscore): the closing word
    boundary of its pattern asks for that.  So [extract_skills] on the text
    c++ returns only the skill c, and a text in which every occurrence of
    c++ (resp. c#) is followed by a character that is no word character
    (whitespace, punctuation) or by the end of the text does not report
    that skill. *)
Theorem nonword_ending_skills_undetectable :
  filter (fun s => ends_in_nonword s = true) SKILLS = ["c++"; "c#"]
  ∧ (∀ text s, s ∈ ["c++"; "c#"] →
       s ∈ extract_skills text → word_follows s text)
  ∧ extract_skills "c++" = ["c"]
  ∧ (∀ text s, s ∈ ["c++"; "c#"] →
       nonword_follows s text → s ∉ extract_skills text).
Proof.
  assert (Hword : ∀ text s, s ∈ ["c++"; "c#"] →
            s ∈ extract_skills text → word_follows s text).
  { intros text s Hs. apply extract_skills_word_follows.
    - apply elem_of_cons in Hs as [->|Hs]; [done|].
      by apply list_elem_of_singleton in Hs as ->.
    - apply elem_of_cons in Hs as [->|Hs]; [done|].
      by apply list_elem_of_singleton in Hs as ->. }
  split_and!.
  - vm_compute. reflexivity.
  - exact Hword.
  - vm_compute. reflexivity.
  - intros text s Hs Hnon Hin.
    destruct (Hword text s Hs Hin) as (before & x & c & after & Ht & Hx & Hc).
    destruct (Hnon before x (String c after) Ht Hx)
      as [?|(c' & after' & [= <- <-] & Hc')]; congruence.
Qed.

End WordBoundary.

(** ** Section classifier *)

Section Sections.

Lemma dedup_loop_elem (seq : list string) :
  ∀ (seen : gset string) (out : list string),
    (∀ x, x ∈ seen ↔ x ∈ out) →
    ∀ y, y ∈ dedup_loop seq seen out ↔ y ∈ out ∨ y ∈ seq.
Proof.
  induction seq as [|x seq IH]; intros seen out Hseen y; simpl.
  - rewrite elem_of_nil. tauto.
  - rewrite elem_of_cons. case_bool_decide as Hx.
    + rewrite (IH seen out Hseen). apply Hseen in Hx.
      split; [tauto|]. intros [?|[->|?]]; tauto.
    + rewrite (IH ({[x]} ∪ seen) (out ++ [x])).
      * rewrite elem_of_app, list_elem_of_singleton. tauto.
      * intros z. rewrite elem_of_union, elem_of_singleton, elem_of_app,
          list_elem_of_singleton, Hseen. tauto.
Qed.

Lemma dedup_elem (seq : list string) (y : string) : y ∈ dedup seq ↔ y ∈ seq.
Proof.
  unfold dedup. rewrite (dedup_loop_elem seq ∅ []).
  - rewrite elem_of_nil. tauto.
  - intros x. rewrite elem_of_empty, elem_of_nil. tauto.
Qed.

Lemma classify_filter (lines : list string) :
  ∀ education_lines experience_lines,
    classify lines education_lines experience_lines
    = (education_lines ++ filter (fun l => goes_to_education l = true) lines,
       experience_lines ++ filter (fun l => goes_to_experience l = true) lines).
Proof.
  induction lines as [|line lines IH]; intros edu exp; cbn [classify].
  - by rewrite !app_nil_r.
  - rewrite !filter_cons, Nat.ltb_antisym.
    destruct (decide (goes_to_education line = true)) as [He|He];
      destruct (decide (goes_to_experience line = true)) as [Hx|Hx];
      unfold goes_to_education, goes_to_experience in He, Hx;
      destruct (3 <=? String.length (Str.lower line));
      destruct (any_keyword EDU_KEYWORDS (Str.lower line));
      destruct (any_keyword EXP_KEYWORDS (Str.lower line));
      simpl in *; try congruence;
      rewrite IH, <- ?app_assoc; reflexivity.
Qed.

Lemma any_keyword_spec (keywords : list string) (line : string) :
  any_keyword keywords (Str.lower line) = true ↔ has_keyword keywords line.
Proof.
  unfold any_keyword, has_keyword. rewrite existsb_exists.
  split; intros (kw & Hkw & Hin); exists kw.
  - by rewrite list_elem_of_In, <- contains_spec.
  - by rewrite <- list_elem_of_In, contains_spec.
Qed.

Lemma education_elem (text line : string) :
  line ∈ (extract_sections text).1 ↔
  line ∈ stripped_lines text ∧ goes_to_education line = true.
Proof.
  unfold extract_sections. rewrite classify_filter. simpl.
  rewrite dedup_elem, list_elem_of_filter. tauto.
Qed.

Lemma experience_elem (text line : string) :
  line ∈ (extract_sections text).2 ↔
  line ∈ stripped_lines text ∧ goes_to_experience line = true.
Proof.
  unfold extract_sections. rewrite classify_filter. simpl.
  rewrite dedup_elem, list_elem_of_filter. tauto.
Qed.

Lemma experience_keyword_length (line : string) :
  has_keyword EXP_KEYWORDS line → 3 ≤ String.length (Str.lower line).
Proof.
  intros (kw & Hkw & Hin). apply occurs_in_length in Hin.
  assert (Hall : Forall (fun kw => 3 ≤ String.length kw) EXP_KEYWORDS)
    by (repeat constructor; simpl; lia).
  rewrite Forall_forall in Hall. specialize (Hall kw Hkw). lia.
Qed.

(** C2. For every text, the two lists of [extract_sections] are disjoint:
    no line is both in the education list and in the experience list; and a
    line of the text whose lower-cased form holds an education keyword as
    well as an experience keyword is in the education list only. *)
Theorem extract_sections_disjoint (text : string) :
  (∀ line, line ∈ (extract_sections text).1 →
           line ∉ (extract_sections text).2)
  ∧ (∀ line, line ∈ stripped_lines text →
       has_keyword EDU_KEYWORDS line → has_keyword EXP_KEYWORDS line →
       line ∈ (extract_sections text).1 ∧ line ∉ (extract_sections text).2).
Proof.
  assert (Hdisj : ∀ line, goes_to_education line = true →
                          goes_to_experience line = false).
  { intros line. unfold goes_to_education, goes_to_experience.
    intros [_ ->]%andb_true_iff. cbn [negb]. by rewrite andb_false_r. }
  split.
  - intros line [_ Hedu]%education_elem [_ Hexp]%experience_elem.
    apply Hdisj in Hedu. congruence.
  - intros line Hline Hedu Hexp.
    assert (Hgo : goes_to_education line = true).
    { unfold goes_to_education. apply andb_true_iff. split.
      - apply Nat.leb_le. by apply experience_keyword_length.
      - by apply any_keyword_spec. }
    split.
    + by apply education_elem.
    + intros [_ H]%experience_elem. apply Hdisj in Hgo. congruence.
Qed.

End Sections.

(** ** Skill search *)

Section SearchFacts.
Import Search.

Lemma StronglySorted_weaken {A : Type} (R S : A → A → Prop) (l : list A) :
  (∀ a b, R a b → S a b) → StronglySorted R l → StronglySorted S l.
Proof.
  intros HRS. induction 1 as [|x l Hl IH Hx]; constructor; [done|].
  eapply Forall_impl; [exact Hx|]. intros y. apply HRS.
Qed.

Lemma collect_hits (cs pm : bool) (skill : string) (resumes : list resume) :
  ∀ matched result,
    collect cs pm skill resumes matched = Returned result →
    result = matched ++ omap (hit_of cs pm skill) resumes.
Proof.
  induction resumes as [|r resumes IH]; intros matched result; cbn [collect].
  - intros [= <-]. by rewrite app_nil_r.
  - unfold hit_of at 1. cbn [omap list_omap]. fold (hit_of cs pm skill).
    destruct (error r) as [e|].
    + apply IH.
    + destruct (matches_of cs pm skill r) as [|m ms] eqn:Hm.
      * apply IH.
      * destruct (file_info r) as [fi|]; [|done].
        intros ->%IH. by rewrite <- app_assoc.
Qed.

Lemma collect_returns (cs pm : bool) (skill : string) (resumes : list resume) :
  (∀ r, r ∈ resumes → error r = None → is_Some (file_info r)) →
  ∀ matched, ∃ result, collect cs pm skill resumes matched = Returned result.
Proof.
  induction resumes as [|r resumes IH]; intros Hinfo matched; cbn [collect].
  - eauto.
  - assert (Hrest : ∀ r', r' ∈ resumes → error r' = None →
                           is_Some (file_info r'))
      by (intros r' Hr'; apply Hinfo; by right).
    specialize (IH Hrest).
    pose proof (Hinfo r (list_elem_of_here _ _)) as Hr.
    destruct (error r) as [e|]; [apply IH|].
    destruct (matches_of cs pm skill r) as [|m ms]; [apply IH|].
    destruct (Hr eq_refl) as [fi ->]. apply IH.
Qed.

Lemma collect_skips_errors (cs pm : bool) (skill : string)
    (resumes : list resume) :
  ∀ matched,
    collect cs pm skill (filter (fun r => error r = None) resumes) matched
    = collect cs pm skill resumes matched.
Proof.
  induction resumes as [|r resumes IH]; intros matched; [done|].
  rewrite filter_cons. destruct (decide (error r = None)) as [Hr|Hr].
  - cbn [collect]. rewrite Hr.
    destruct (matches_of cs pm skill r); [apply IH|].
    destruct (file_info r); [apply IH | done].
  - cbn [collect]. destruct (error r); [apply IH | done].
Qed.

Lemma hit_of_no_error (cs pm : bool) (skill : string) (r : resume) (h : hit) :
  hit_of cs pm skill r = Some h → error r = None.
Proof. unfold hit_of. by destruct (error r). Qed.

Lemma search_by_skill_hits (resumes : list resume) (skill : string)
    (cs pm : bool) (result : list hit) :
  skill ≠ ""%string →
  search_by_skill resumes skill cs pm = Returned result →
  result = stable_sort match_count (fun a b => b <=? a)
             (hits_in_collection_order cs pm skill resumes).
Proof.
  intros Hskill. unfold search_by_skill, hits_in_collection_order.
  destruct skill as [|c skill]; [done|]. cbn [Str.nonempty negb orb].
  case_bool_decide as Hres.
  - intros [= <-]. by subst resumes.
  - destruct (collect _ _ _ _ _) as [matched|k] eqn:Hc; [|done].
    intros [= <-]. by apply collect_hits in Hc as ->.
Qed.

Lemma desc_total (a b : nat) : (b <=? a) = true ∨ (a <=? b) = true.
Proof. rewrite !Nat.leb_le. lia. Qed.

Lemma desc_trans (a b c : nat) :
  (b <=? a) = true → (c <=? b) = true → (c <=? a) = true.
Proof. rewrite !Nat.leb_le. lia. Qed.

Lemma collect_cons_hit (cs pm : bool) (skill : string) (r : resume)
    (h : hit) (resumes : list resume) (matched : list hit) :
  hit_of cs pm skill r = Some h →
  collect cs pm skill (r :: resumes) matched
  = collect cs pm skill resumes (matched ++ [h]).
Proof.
  unfold hit_of. cbn [collect]. destruct (error r); [done|].
  destruct (matches_of cs pm skill r); [done|].
  destruct (file_info r); [|done]. by intros [= <-].
Qed.

Lemma sort_counts_1_3_2 (h1 h2 h3 : hit) :
  match_count h1 = 1 → match_count h2 = 3 → match_count h3 = 2 →
  stable_sort match_count (fun a b => b <=? a) [h1; h2; h3] = [h2; h3; h1].
Proof.
  intros H1 H2 H3. unfold stable_sort. cbn [foldr insert_sorted].
  rewrite H2, H3. cbn [Nat.leb insert_sorted].
  rewrite H1, H2, H3. reflexivity.
Qed.

(** C5. Whenever [search_by_skill] returns, its result is sorted by
    descending match count, and for a non-empty query the entries with
    equal match counts stand in the order of their records in the input
    collection (the sort is stable).  The search returns whenever each
    record without an error carries its file information.  In particular
    three records with match counts 1, 3 and 2 come out in the order of
    the counts 3, 2, 1. *)
Theorem search_by_skill_ranked :
  (∀ resumes skill cs pm result,
     search_by_skill resumes skill cs pm = Returned result →
     ranked result
     ∧ (skill ≠ ""%string →
        ties_in_order_of (hits_in_collection_order cs pm skill resumes)
          result))
  ∧ (∀ resumes skill cs pm,
       (∀ r, r ∈ resumes → error r = None → is_Some (file_info r)) →
       ∃ result, search_by_skill resumes skill cs pm = Returned result)
  ∧ (∀ r1 r2 r3 h1 h2 h3 skill cs pm,
       skill ≠ ""%string →
       hit_of cs pm (normalize_query cs skill) r1 = Some h1 →
       hit_of cs pm (normalize_query cs skill) r2 = Some h2 →
       hit_of cs pm (normalize_query cs skill) r3 = Some h3 →
       match_count h1 = 1 → match_count h2 = 3 → match_count h3 = 2 →
       search_by_skill [r1; r2; r3] skill cs pm = Returned [h2; h3; h1]).
Proof.
  split_and!.
  - intros resumes skill cs pm result Hres.
    destruct (decide (skill = ""%string)) as [->|Hskill].
    + injection Hres as <-. split; [constructor | done].
    + apply search_by_skill_hits in Hres as ->; [|done]. split.
      * unfold ranked. eapply StronglySorted_weaken;
          [|apply (stable_sort_sorted match_count (fun a b => b <=? a));
            [intros a b; apply desc_total | intros a b c; apply desc_trans]].
        intros a b. apply Nat.leb_le.
      * intros _ n. apply stable_sort_stable. intros a b. apply desc_total.
  - intros resumes skill cs pm Hinfo. unfold search_by_skill.
    destruct (negb (Str.nonempty skill) || bool_decide (resumes = []));
      [eauto|].
    destruct (collect_returns cs pm (normalize_query cs skill) resumes
                Hinfo []) as [matched ->]. eauto.
  - intros r1 r2 r3 h1 h2 h3 skill cs pm Hskill Hr1 Hr2 Hr3 H1 H2 H3.
    unfold search_by_skill.
    destruct skill as [|c skill]; [done|]. cbn [Str.nonempty negb orb].
    rewrite bool_decide_false by done.
    rewrite (collect_cons_hit _ _ _ _ _ _ _ Hr1).
    rewrite (collect_cons_hit _ _ _ _ _ _ _ Hr2).
    rewrite (collect_cons_hit _ _ _ _ _ _ _ Hr3).
    cbn [collect app]. by rewrite sort_counts_1_3_2.
Qed.


(** C6. With [partial_match] set, a record skill matches the normalized
    query exactly when the query occurs in the (normalized) skill or the
    skill occurs in the query; the match is [partial] when the query is
    strictly shorter than the skill and [exact] otherwise.  With
    [partial_match] unset, a skill matches exactly when it equals the
    query, and the match is [exact].  In particular the query py against
    the skill python gives a partial match, and the query python against
    the skill python an exact one. *)
Theorem match_skill_rule :
  (∀ (cs : bool) (query resume_skill : string),
     let clean := if cs then resume_skill else Str.lower resume_skill in
     (is_Some (match_skill cs true query resume_skill)
      ↔ occurs_in query clean ∨ occurs_in clean query)
     ∧ (∀ m, match_skill cs true query resume_skill = Some m →
          Search.skill m = resume_skill
          ∧ (match_type m = partial
             ↔ String.length query < String.length clean)
          ∧ (match_type m = exact
             ↔ String.length clean ≤ String.length query))
     ∧ (∀ m, match_skill cs false query resume_skill = Some m
             ↔ query = clean
               ∧ m = {| Search.skill := resume_skill; match_type := exact |}))
  ∧ (∀ fi,
       search_by_skill
         [{| error := None; skills := Some ["python"];
             file_info := Some fi |}]
         "py" false true
       = Returned
           [{| file := fi;
               matched_skills :=
                 [{| Search.skill := "python"; match_type := partial |}];
               total_skills := 1;
               match_count := 1 |}])
  ∧ (∀ fi,
       search_by_skill
         [{| error := None; skills := Some ["python"];
             file_info := Some fi |}]
         "python" false true
       = Returned
           [{| file := fi;
               matched_skills :=
                 [{| Search.skill := "python"; match_type := exact |}];
               total_skills := 1;
               match_count := 1 |}]).
Proof.
  split_and!; [|done|done].
  intros cs query resume_skill clean. unfold match_skill. fold clean.
  split_and!.
  - rewrite <- !contains_spec, <- orb_true_iff.
    destruct (Str.contains query clean || Str.contains clean query).
    + split; [done | eauto].
    + split; [by intros [m ?] | done].
  - intros m.
    destruct (Str.contains query clean || Str.contains clean query); [|done].
    intros [= <-]. cbn [Search.skill match_type]. split; [done|].
    destruct (Nat.ltb_spec (String.length query) (String.length clean)).
    + split; split; try done; lia.
    + split; split; try done; lia.
  - intros m. destruct (String.eqb_spec query clean) as [Heq|Hne]; split.
    + by intros [= <-].
    + by intros [_ ->].
    + done.
    + by intros [? _].
Qed.

(** C7. Records that carry an error never contribute to the result of
    [search_by_skill]: the search gives the same outcome on the collection
    with those records removed, and every entry it returns stems from a
    record of the collection without an error, whatever skills the records
    with an error hold.  An empty query and an empty collection give the
    empty result, not an error. *)
Theorem search_by_skill_skips_errors :
  (∀ resumes skill cs pm,
     search_by_skill resumes skill cs pm
     = search_by_skill (filter (fun r => error r = None) resumes) skill cs pm)
  ∧ (∀ resumes skill cs pm result h,
       search_by_skill resumes skill cs pm = Returned result →
       h ∈ result →
       ∃ r, r ∈ resumes ∧ error r = None
            ∧ hit_of cs pm (normalize_query cs skill) r = Some h)
  ∧ (∀ resumes cs pm, search_by_skill resumes "" cs pm = Returned [])
  ∧ (∀ skill cs pm, search_by_skill [] skill cs pm = Returned []).
Proof.
  split_and!.
  - intros resumes skill cs pm. unfold search_by_skill.
    destruct (negb (Str.nonempty skill)); [done|]. cbn [orb].
    do 2 case_bool_decide; subst; try done.
    + pose proof (collect_skips_errors cs pm (normalize_query cs skill)
                    resumes []) as Hc.
      replace (filter (fun r => error r = None) resumes) with (@nil resume)
        in Hc by done.
      cbn [collect] in Hc. by rewrite <- Hc.
    + by rewrite collect_skips_errors.
  - intros resumes skill cs pm result h Hres Hh.
    destruct (decide (skill = ""%string)) as [->|Hskill].
    + injection Hres as <-. by apply elem_of_nil in Hh.
    + apply search_by_skill_hits in Hres as ->; [|done].
      apply stable_sort_elem, list_elem_of_omap in Hh as (r & Hr & Hhit).
      exists r. split_and!; [done | | done].
      by apply hit_of_no_error in Hhit.
  - done.
  - intros skill cs pm. unfold search_by_skill.
    by rewrite bool_decide_true, orb_true_r.
Qed.

End SearchFacts.

(** ** Record builder *)

Section Builder.

Lemma is_read_error_spec (raw_text : string) :
  is_read_error raw_text = true ↔
  ∃ prefix rest, prefix ∈ READ_ERROR_PREFIXES ∧ raw_text = prefix +:+ rest.
Proof.
  unfold is_read_error, Str.startswith. rewrite existsb_exists. split.
  - intros (prefix & Hin & (rest & ->)%prefix_spec).
    exists prefix, rest. by rewrite list_elem_of_In.
  - intros (prefix & rest & Hin & ->). exists prefix.
    rewrite <- list_elem_of_In, prefix_spec. eauto.
Qed.

(** C8. For a raw text that begins with one of the read-failure sentinels
    (PDF error:, DOCX error:, File not found!, Unsupported), [parse_resume]
    returns the record whose error field is that text and that holds no
    extracted field; no extraction step takes part in that result: it is
    the same whatever the cleaners and the extractors compute. *)
Theorem parse_resume_read_error (raw_text : string) :
  (∃ prefix rest,
     prefix ∈ ["PDF error:"; "DOCX error:"; "File not found!"; "Unsupported"]
     ∧ raw_text = prefix +:+ rest) →
  parse_resume raw_text = ParseError raw_text
  ∧ ∀ clean clean_lines basic_info_of skills_of sections_of,
      parse_resume_with clean clean_lines basic_info_of skills_of sections_of
        raw_text
      = ParseError raw_text.
Proof.
  intros Hsentinel%is_read_error_spec.
  unfold parse_resume, parse_resume_with. rewrite Hsentinel. done.
Qed.

(** C1 as worded, with one education line and one experience line, does not
    hold of the record that [parse_resume] builds for the scenario text. *)
Lemma scenario_one_experience_line_fails :
  ¬ ∃ data,
      parse_resume SCENARIO_TEXT = Parsed data
      ∧ contact_email (contact data) = "jane.doe@example.com"
      ∧ occurs_in "9876543210" (contact_phone (contact data))
      ∧ skills data = ["python"; "sql"]
      ∧ length (education data) = 1
      ∧ length (experience data) = 1.
Proof.
  intros (data & Hparse & _ & _ & _ & _ & Hexp).
  vm_compute in Hparse. injection Hparse as <-. discriminate Hexp.
Qed.

(** C1 (amended). For the one-line scenario text, [parse_resume] builds a
    record (no read error) whose primary e-mail is jane.doe@example.com,
    whose primary phone holds the digits 9876543210 (it is the match with
    the +91 prefix), whose skills are exactly python and sql in that order,
    and which has exactly one education line and no experience line: the
    single line holds keywords of both kinds and goes to education only. *)
Theorem scenario_record :
  ∃ data,
    parse_resume SCENARIO_TEXT = Parsed data
    ∧ contact_email (contact data) = "jane.doe@example.com"
    ∧ contact_phone (contact data) = "+91 9876543210"
    ∧ occurs_in "9876543210" (contact_phone (contact data))
    ∧ skills data = ["python"; "sql"]
    ∧ education data = [SCENARIO_TEXT]
    ∧ length (education data) = 1
    ∧ experience data = [].
Proof.
  eexists. split; [vm_compute; reflexivity|].
  split_and!; try reflexivity.
  by exists "+91 "%string, ""%string.
Qed.

End Builder.

(** ** The statements at concrete inputs *)

Section Instances.
Import Search.

Lemma extract_sections_disjoint_witness :
  let line := "Education and work experience"%string in
  line ∈ (extract_sections line).1 ∧ line ∉ (extract_sections line).2.
Proof.
  intros line.
  apply (proj2 (extract_sections_disjoint line) line).
  - vm_compute. constructor.
  - exists "education"%string. split; [vm_compute; constructor|].
    by exists ""%string, " and work experience"%string.
  - exists "experience"%string. split; [vm_compute; constructor|].
    by exists "education and work "%string, ""%string.
Defined.

Lemma extract_skills_vocabulary_closed_witness : "python"%string ∈ SKILLS.
Proof.
  apply (proj1 (extract_skills_vocabulary_closed "I like Python")
           "python"%string).
  vm_compute. constructor.
Defined.

Lemma nonword_ending_skills_undetectable_witness :
  word_follows "c++" "c++x" ∧ "c++"%string ∉ extract_skills "c++.".
Proof.
  split.
  - apply (proj1 (proj2 nonword_ending_skills_undetectable) "c++x"%string
             "c++"%string).
    + constructor.
    + vm_compute. constructor. constructor.
  - apply (proj2 (proj2 (proj2 nonword_ending_skills_undetectable))
             "c++."%string "c++"%string).
    + constructor.
    + intros before x after Ht Hx.
      destruct x as [|x1 [|x2 [|x3 [|x4 x]]]]; try discriminate Hx.
      destruct before as [|b1 [|b2 before]];
        rewrite ?append_cons, ?append_nil_l in Ht.
      * injection Ht as _ _ _ <-. right. by exists "."%char, ""%string.
      * injection Ht as _ _ _ _ <-. by left.
      * apply (f_equal String.length) in Ht. simpl in Ht.
        rewrite length_append in Ht. simpl in Ht. lia.
Defined.

Lemma parse_resume_read_error_witness :
  parse_resume "Unsupported file type!" = ParseError "Unsupported file type!"
  ∧ ∀ clean clean_lines basic_info_of skills_of sections_of,
      parse_resume_with clean clean_lines basic_info_of skills_of sections_of
        "Unsupported file type!"
      = ParseError "Unsupported file type!".
Proof.
  apply (parse_resume_read_error "Unsupported file type!").
  exists "Unsupported"%string, " file type!"%string.
  split; [|reflexivity]. do 3 right. left.
Defined.

Lemma match_skill_rule_witness :
  Search.skill {| Search.skill := "Python"; match_type := partial |}
  = "Python"%string
  ∧ (match_type {| Search.skill := "Python"; match_type := partial |} = partial
     ↔ String.length "py" < String.length (Str.lower "Python"))
  ∧ (match_type {| Search.skill := "Python"; match_type := partial |} = exact
     ↔ String.length (Str.lower "Python") ≤ String.length "py").
Proof.
  apply (proj1 (proj2 (proj1 match_skill_rule false "py"%string
                         "Python"%string))).
  reflexivity.
Defined.

Lemma search_by_skill_skips_errors_witness :
  let fi := {| name := "cv.pdf"; size_bytes := 2048 |} in
  let failed :=
    {| error := Some "PDF error: damaged"%string;
       skills := Some ["python"%string]; file_info := Some fi |} in
  let parsed :=
    {| error := None; skills := Some ["python"%string];
       file_info := Some fi |} in
  let h :=
    {| file := fi;
       matched_skills := [{| Search.skill := "python"; match_type := exact |}];
       total_skills := 1; match_count := 1 |} in
  ∃ r, r ∈ [failed; parsed] ∧ error r = None
       ∧ hit_of false true (normalize_query false "python") r = Some h.
Proof.
  intros fi failed parsed h.
  apply (proj1 (proj2 search_by_skill_skips_errors)
           [failed; parsed] "python"%string false true [h] h).
  - reflexivity.
  - constructor.
Defined.

Lemma search_by_skill_ranked_witness :
  let fi := {| name := "cv.pdf"; size_bytes := 2048 |} in
  let one := {| error := None; skills := Some ["python"%string];
                file_info := Some fi |} in
  let three := {| error := None;
                  skills := Some ["python"; "py"; "python3"]%string;
                  file_info := Some fi |} in
  let two := {| error := None; skills := Some ["py"; "python"]%string;
                file_info := Some fi |} in
  (∃ result, search_by_skill [one; three; two] "python" false true
             = Returned result)
  ∧ ∃ h1 h3 h2,
      search_by_skill [one; three; two] "python" false true
      = Returned [h3; h2; h1]
      ∧ ranked [h3; h2; h1]
      ∧ match_count h3 = 3 ∧ match_count h2 = 2 ∧ match_count h1 = 1.
Proof.
  intros fi one three two.
  pose (q := normalize_query false "python").
  destruct (hit_of false true q one) as [h1|] eqn:E1; [|discriminate E1].
  destruct (hit_of false true q three) as [h3|] eqn:E3; [|discriminate E3].
  destruct (hit_of false true q two) as [h2|] eqn:E2; [|discriminate E2].
  assert (H1 : match_count h1 = 1) by (injection E1 as <-; reflexivity).
  assert (H3 : match_count h3 = 3) by (injection E3 as <-; reflexivity).
  assert (H2 : match_count h2 = 2) by (injection E2 as <-; reflexivity).
  assert (Hs : search_by_skill [one; three; two] "python" false true
               = Returned [h3; h2; h1]).
  { apply (proj2 (proj2 search_by_skill_ranked)
             one three two h1 h3 h2 "python"%string false true);
      done. }
  split.
  - apply (proj1 (proj2 search_by_skill_ranked)).
    intros r Hr _.
    repeat (apply elem_of_cons in Hr as [->|Hr]; [by eexists|]).
    by apply elem_of_nil in Hr.
  - exists h1, h3, h2. split_and!; try done.
    apply (proj1 search_by_skill_ranked _ _ _ _ _ Hs).
Defined.

End Instances.

(** ** The normal form of cleaned text *)

Section CleanedText.

Lemma collapsed_spaces (a : string) :
  ∀ b c rest,
    collapsed b (a +:+ String c rest) = true → Char.isspace c = true →
    c = " "%char ∧ collapsed true rest = true.
Proof.
  induction a as [|x a IH]; intros b c rest; rewrite ?append_nil_l, ?append_cons;
    cbn [collapsed].
  - intros H Hc. rewrite Hc in H.
    apply andb_true_iff in H as [[Heq _]%andb_true_iff Hrest].
    by apply Ascii.eqb_eq in Heq.
  - destruct (Char.isspace x).
    + intros [_ H]%andb_true_iff Hc. by apply (IH true c rest).
    + apply IH.
Qed.

Lemma collapsed_true_starts_clean (s : string) :
  collapsed true s = true → starts_clean s = true.
Proof.
  destruct s as [|c s]; [done|]. simpl. destruct (Char.isspace c); [|done].
  by rewrite andb_false_r.
Qed.

Lemma rstrip_last (s : string) (c : ascii) :
  last_char (Str.rstrip s) = Some c → Char.isspace c = false.
Proof.
  revert c. induction s as [|x s IH]; intros c; [done|]. cbn [Str.rstrip].
  destruct (Str.rstrip s) as [|d r] eqn:Hr.
  - destruct (Char.isspace x) eqn:Hx; [done|]. by intros [= <-].
  - rewrite last_char_cons. destruct (last_char (String d r)) as [e|] eqn:He.
    + intros [= <-]. by apply IH.
    + by rewrite last_char_cons in He.
Qed.

Lemma last_char_app (a : string) (c : ascii) :
  last_char (a +:+ String c "") = Some c.
Proof.
  induction a as [|x a IH]; [done|].
  rewrite append_cons, last_char_cons, IH. done.
Qed.

Lemma clean_text_collapsed (t : string) : collapsed false (clean_text t) = true.
Proof.
  rewrite clean_text_collapse. apply collapsed_strip, collapse_collapsed.
Qed.

(** The text that [clean_text] returns is in normal form: its only
    whitespace characters are spaces, no two whitespace characters are
    adjacent, and it neither starts nor ends with whitespace. *)
Theorem clean_text_normal_form (t : string) :
  (∀ a c b, clean_text t = a +:+ String c b →
            Char.isspace c = true → c = " "%char)
  ∧ (∀ a c d b, clean_text t = a +:+ String c (String d b) →
                Char.isspace c = true → Char.isspace d = false)
  ∧ (∀ c b, clean_text t = String c b → Char.isspace c = false)
  ∧ (∀ a c, clean_text t = a +:+ String c "" → Char.isspace c = false).
Proof.
  pose proof (clean_text_collapsed t) as Hcol.
  split_and!.
  - intros a c b Ht Hc. rewrite Ht in Hcol.
    by destruct (collapsed_spaces a false c b Hcol Hc).
  - intros a c d b Ht Hc. rewrite Ht in Hcol.
    destruct (collapsed_spaces a false c _ Hcol Hc) as [_ Hd].
    apply collapsed_true_starts_clean in Hd. simpl in Hd.
    by apply negb_true_iff.
  - intros c b Ht.
    pose proof (rstrip_starts_clean _ (lstrip_starts_clean
                  (collapse_from false t))) as Hs.
    rewrite clean_text_collapse in Ht. unfold Str.strip in Ht.
    rewrite Ht in Hs. simpl in Hs. by apply negb_true_iff.
  - intros a c Ht. apply (rstrip_last (Str.lstrip (collapse_from false t))).
    rewrite clean_text_collapse in Ht. unfold Str.strip in Ht.
    rewrite Ht. apply last_char_app.
Qed.

Lemma clean_text_normal_form_witness :
  " "%char = " "%char ∧ Char.isspace "b" = false.
Proof.
  split.
  - apply (proj1 (clean_text_normal_form "  a 	 b ") "a"%string " "%char
             "b"%string); reflexivity.
  - apply (proj1 (proj2 (clean_text_normal_form "  a 	 b ")) "a"%string
             " "%char "b"%char ""%string); reflexivity.
Defined.

Lemma collapse_from_length (s : string) :
  ∀ b, String.length (collapse_from b s) ≤ String.length s.
Proof.
  induction s as [|c s IH]; intros b; simpl; [done|].
  destruct (Char.isspace c); [destruct b|]; simpl.
  - specialize (IH true). lia.
  - specialize (IH true). lia.
  - specialize (IH false). lia.
Qed.

Lemma lstrip_length (s : string) :
  String.length (Str.lstrip s) ≤ String.length s.
Proof.
  induction s as [|c s IH]; simpl; [done|].
  destruct (Char.isspace c); simpl; lia.
Qed.

Lemma rstrip_length (s : string) :
  String.length (Str.rstrip s) ≤ String.length s.
Proof.
  induction s as [|c s IH]; [done|]. cbn [Str.rstrip].
  destruct (Str.rstrip s); [destruct (Char.isspace c)|]; simpl in *; lia.
Qed.

(** Cleaning never lengthens a text: the length of [clean_text t] is at
    most the length of [t] (the raw length that [parse_resume] records). *)
Theorem clean_text_length (t : string) :
  String.length (clean_text t) ≤ String.length t.
Proof.
  rewrite clean_text_collapse. unfold Str.strip.
  pose proof (rstrip_length (Str.lstrip (collapse_from false t))).
  pose proof (lstrip_length (collapse_from false t)).
  pose proof (collapse_from_length t false). lia.
Qed.

End CleanedText.

(** ** Cleaned text and the words of a text *)

Section Words.

Lemma rstrip_cons_nonspace (c : ascii) (s : string) :
  Char.isspace c = false → Str.rstrip (String c s) = String c (Str.rstrip s).
Proof.
  intros Hc. cbn [Str.rstrip]. destruct (Str.rstrip s); [|done].
  by rewrite Hc.
Qed.

Lemma collapse_true_starts_clean (s : string) :
  starts_clean (collapse_from true s) = true.
Proof.
  induction s as [|c s IH]; [done|]. simpl.
  destruct (Char.isspace c) eqn:Hc; [done|]. simpl. by rewrite Hc.
Qed.

Lemma lstrip_collapse (t : string) :
  Str.lstrip (collapse_from false t) = collapse_from true t.
Proof.
  destruct t as [|c t]; [done|]. cbn [collapse_from].
  destruct (Char.isspace c) eqn:Hc.
  - cbn [Str.lstrip]. change (Char.isspace " ") with true. cbv iota.
    apply lstrip_fixed, collapse_true_starts_clean.
  - cbn [Str.lstrip]. by rewrite Hc.
Qed.

Lemma join_cons_cons (sep x y : string) (l : list string) :
  Str.join sep (x :: y :: l) = x +:+ sep +:+ Str.join sep (y :: l).
Proof. reflexivity. Qed.

Lemma join_push (sep : string) (c : ascii) (w : string) (ws : list string) :
  Str.join sep (String c w :: ws) = String c (Str.join sep (w :: ws)).
Proof. destruct ws; reflexivity. Qed.

Lemma words_nonempty_strings (s : string) :
  Forall (fun w => w ≠ ""%string) (words s).
Proof.
  induction s as [|c s IH]; [constructor|]. cbn [words].
  destruct (Char.isspace c); [done|].
  destruct (starts_blank s); [by constructor|].
  destruct (words s) as [|w ws]; [by repeat constructor|].
  inversion IH; subst. by constructor.
Qed.

Lemma join_empty (sep : string) (l : list string) :
  Forall (fun w => w ≠ ""%string) l → Str.join sep l = ""%string → l = [].
Proof.
  destruct l as [|x l]; [done|]. intros Hl. inversion Hl as [|? ? Hx _]; subst.
  destruct x as [|c x]; [done|]. by rewrite join_push.
Qed.

Lemma rstrip_collapse_words (t : string) :
  Str.rstrip (collapse_from true t) = Str.join " " (words t).
Proof.
  induction t as [|c t IH]; [done|]. cbn [collapse_from words].
  destruct (Char.isspace c) eqn:Hc; [exact IH|].
  rewrite rstrip_cons_nonspace by done.
  destruct t as [|d t]; [done|]. cbn [starts_blank].
  cbn [collapse_from] in IH |- *.
  destruct (Char.isspace d) eqn:Hd.
  - cbn [Str.rstrip]. rewrite IH. change (Char.isspace " ") with true.
    destruct (Str.join " " (words (String d t))) as [|e r] eqn:Hj.
    + apply join_empty in Hj as ->; [done | apply words_nonempty_strings].
    + destruct (words (String d t)) as [|w ws]; [done|].
      rewrite join_cons_cons, Hj. done.
  - rewrite IH. destruct (words (String d t)) as [|w ws]; [done|].
    by rewrite join_push.
Qed.

Lemma clean_text_words (t : string) :
  clean_text t = Str.join " " (words t).
Proof.
  rewrite clean_text_collapse. unfold Str.strip.
  rewrite lstrip_collapse. apply rstrip_collapse_words.
Qed.

(** [clean_text] returns the words of the text, its maximal runs of
    characters that are no whitespace, joined by single spaces: in Python
    terms, the text split on whitespace and joined again by a space. *)
Theorem clean_text_joins_words (t : string) :
  clean_text t = Str.join " " (words t).
Proof. apply clean_text_words. Qed.

End Words.

(** ** The line-preserving normalizer *)

Section KeepLines.

Local Abbreviation no_newline :=
  (all_chars (fun c => negb (is_newline c))).
Local Abbreviation nonblank := (fun ln : string => Str.nonempty ln = true).

Lemma split_nonempty (sep : ascii) (s : string) : Str.split sep s ≠ [].
Proof.
  destruct s as [|c s]; [done|]. simpl.
  destruct (Ascii.eqb c sep); [done|]. by destruct (Str.split sep s).
Qed.

Lemma join_split (t : string) : Str.join NEWLINE (Str.split "010" t) = t.
Proof.
  induction t as [|c t IH]; [done|]. cbn [Str.split].
  pose proof (split_nonempty "010" t) as Hne.
  destruct (Ascii.eqb_spec c "010") as [->|Hc].
  - destruct (Str.split "010" t) as [|w ws]; [done|].
    rewrite join_cons_cons, IH. done.
  - destruct (Str.split "010" t) as [|w ws]; [done|].
    by rewrite join_push, IH.
Qed.

Lemma split_line (a b : string) :
  no_newline a = true →
  Str.split "010" (a +:+ NEWLINE +:+ b) = a :: Str.split "010" b.
Proof.
  induction a as [|x a IH]; [done|]. cbn [all_chars].
  intros [Hx Ha]%andb_true_iff. rewrite append_cons. cbn [Str.split].
  unfold is_newline in Hx. apply negb_true_iff in Hx. rewrite Hx.
  by rewrite (IH Ha).
Qed.

Lemma split_single (a : string) :
  no_newline a = true → Str.split "010" a = [a].
Proof.
  induction a as [|x a IH]; [done|]. cbn [all_chars Str.split].
  intros [Hx Ha]%andb_true_iff.
  unfold is_newline in Hx. apply negb_true_iff in Hx. rewrite Hx.
  by rewrite (IH Ha).
Qed.

Lemma split_join (ls : list string) :
  ls ≠ [] → Forall (fun l => no_newline l = true) ls →
  Str.split "010" (Str.join NEWLINE ls) = ls.
Proof.
  induction ls as [|x ls IH]; [done|]. intros _ Hall.
  inversion Hall as [|? ? Hx Hls]; subst.
  destruct ls as [|y ls]; [by apply split_single|].
  rewrite join_cons_cons, split_line by done. by rewrite IH.
Qed.

Lemma collapsed_no_newline (s : string) :
  ∀ b, collapsed b s = true → no_newline s = true.
Proof.
  induction s as [|c s IH]; intros b; [done|]. cbn [collapsed all_chars].
  destruct (Char.isspace c) eqn:Hc.
  - intros [[Heq _]%andb_true_iff Hs]%andb_true_iff.
    apply Ascii.eqb_eq in Heq. subst c. by rewrite (IH true Hs).
  - intros Hs. rewrite (IH false Hs), andb_true_r.
    unfold is_newline. destruct (Ascii.eqb_spec c "010") as [->|]; done.
Qed.

Lemma clean_text_no_newline (t : string) : no_newline (clean_text t) = true.
Proof. apply (collapsed_no_newline _ false), clean_text_collapsed. Qed.

Lemma strip_clean_text (t : string) : Str.strip (clean_text t) = clean_text t.
Proof. rewrite clean_text_collapse. apply strip_idempotent. Qed.

Lemma words_starts_clean (c : ascii) (s : string) :
  Char.isspace c = false → words (String c s) ≠ [].
Proof.
  intros Hc. cbn [words]. rewrite Hc.
  destruct (starts_blank s); [done|]. by destruct (words s).
Qed.

Lemma words_app_space (a : string) (c : ascii) (b : string) :
  Char.isspace c = true → words (a +:+ String c b) = words a ++ words b.
Proof.
  intros Hc. induction a as [|x a IH].
  - rewrite append_nil_l. cbn [words]. by rewrite Hc.
  - rewrite append_cons. cbn [words]. destruct (Char.isspace x); [exact IH|].
    destruct a as [|y a].
    + rewrite append_nil_l in *. cbn [starts_blank]. rewrite Hc, IH. done.
    + rewrite append_cons in *. cbn [starts_blank].
      destruct (Char.isspace y) eqn:Hy; [by rewrite IH|].
      rewrite IH. pose proof (words_starts_clean y a Hy).
      by destruct (words (String y a)).
Qed.

Lemma words_word (w : string) : wordlike w → words w = [w].
Proof.
  intros [Hne Hall]. induction w as [|c w IH]; [done|].
  cbn [all_chars] in Hall. apply andb_true_iff in Hall as [Hc Hw].
  apply negb_true_iff in Hc. cbn [words]. rewrite Hc.
  destruct w as [|d w]; [done|]. cbn [starts_blank].
  cbn [all_chars] in Hw. pose proof Hw as [Hd _]%andb_true_iff.
  apply negb_true_iff in Hd. rewrite Hd. by rewrite IH.
Qed.

Lemma words_wordlike (s : string) : Forall wordlike (words s).
Proof.
  induction s as [|c s IH]; [constructor|]. cbn [words].
  destruct (Char.isspace c) eqn:Hc; [done|].
  assert (Hone : wordlike (String c "")).
  { split; [done|]. simpl. by rewrite Hc. }
  destruct (starts_blank s); [by constructor|].
  destruct (words s) as [|w ws]; [by constructor|].
  inversion IH as [|? ? [_ Hw] Hws]; subst. constructor; [|done].
  split; [done|]. simpl. by rewrite Hc, Hw.
Qed.

Lemma words_join_space (ws : list string) :
  Forall wordlike ws → words (Str.join " " ws) = ws.
Proof.
  induction ws as [|w ws IH]; [done|]. intros Hall.
  inversion Hall as [|? ? Hw Hws]; subst.
  destruct ws as [|y ws]; [by apply words_word|].
  rewrite join_cons_cons.
  change (" " +:+ Str.join " " (y :: ws))
    with (String " " (Str.join " " (y :: ws))).
  rewrite words_app_space by done. by rewrite words_word, IH.
Qed.

Lemma words_clean_text (t : string) : words (clean_text t) = words t.
Proof. rewrite clean_text_words. apply words_join_space, words_wordlike. Qed.

Lemma clean_text_twice (t : string) : clean_text (clean_text t) = clean_text t.
Proof. by rewrite (clean_text_words (clean_text t)), words_clean_text,
         <- clean_text_words. Qed.

Lemma words_join_lines (ls : list string) :
  words (Str.join NEWLINE ls) = concat (map words ls).
Proof.
  induction ls as [|x ls IH]; [done|].
  destruct ls as [|y ls]; [simpl; by rewrite app_nil_r|].
  rewrite join_cons_cons. unfold NEWLINE at 1.
  rewrite append_cons, append_nil_l, words_app_space by done.
  by rewrite IH.
Qed.

Lemma words_nonblank_lines (ls : list string) :
  concat (map words (filter nonblank ls)) = concat (map words ls).
Proof.
  induction ls as [|x ls IH]; [done|]. rewrite filter_cons.
  destruct x; simpl; [exact IH | by rewrite IH].
Qed.

Lemma clean_text_keep_lines_eq (t : string) :
  clean_text_keep_lines t
  = Str.join NEWLINE (filter nonblank (map clean_text (Str.split "010" t))).
Proof. reflexivity. Qed.

Lemma cleaned_lines_fixed (ls : list string) :
  filter nonblank (map clean_text (filter nonblank (map clean_text ls)))
  = filter nonblank (map clean_text ls).
Proof.
  induction ls as [|x ls IH]; [done|]. cbn [map]. rewrite filter_cons.
  destruct (decide (nonblank (clean_text x))) as [Hx|Hx]; [|exact IH].
  cbn [map]. rewrite filter_cons, clean_text_twice.
  destruct (decide (nonblank (clean_text x))); [|done]. by rewrite IH.
Qed.

Lemma cleaned_lines_no_newline (ls : list string) :
  Forall (fun l => no_newline l = true)
    (filter nonblank (map clean_text ls)).
Proof.
  apply Forall_forall. intros l [_ Hl]%list_elem_of_filter.
  apply list_elem_of_fmap in Hl as (x & -> & _). apply clean_text_no_newline.
Qed.

(** The line-preserving normalizer is idempotent: a text it has cleaned is
    returned unchanged. *)
Theorem clean_text_keep_lines_idempotent (t : string) :
  clean_text_keep_lines (clean_text_keep_lines t) = clean_text_keep_lines t.
Proof.
  rewrite (clean_text_keep_lines_eq (clean_text_keep_lines t)).
  rewrite (clean_text_keep_lines_eq t).
  set (ls := filter nonblank (map clean_text (Str.split "010" t))).
  destruct (decide (ls = [])) as [Hls|Hls]; [by rewrite Hls|].
  rewrite split_join; [|done | apply cleaned_lines_no_newline].
  unfold ls. by rewrite cleaned_lines_fixed.
Qed.

Lemma stripped_lines_cleaned (t : string) :
  stripped_lines (clean_text_keep_lines t)
  = filter (fun ln => Str.nonempty ln = true)
      (map clean_text (Str.split "010" t)).
Proof.
  rewrite clean_text_keep_lines_eq. unfold stripped_lines.
  set (ls := filter nonblank (map clean_text (Str.split "010" t))).
  destruct (decide (ls = [])) as [Hls|Hls]; [by rewrite Hls|].
  rewrite split_join; [|done | apply cleaned_lines_no_newline].
  assert (Hstrip : map Str.strip ls = ls).
  { unfold ls. generalize (Str.split "010" t). intros l.
    induction l as [|x l IH]; [done|]. cbn [map]. rewrite filter_cons.
    destruct (decide (nonblank (clean_text x))); [|exact IH].
    cbn [map]. by rewrite strip_clean_text, IH. }
  rewrite Hstrip. unfold ls.
  generalize (map clean_text (Str.split "010" t)). intros l.
  induction l as [|x l IH]; [done|]. rewrite filter_cons.
  destruct (decide (nonblank x)) as [Hx|Hx]; [|exact IH].
  rewrite filter_cons. destruct (decide (nonblank x)); [|done]. by rewrite IH.
Qed.

(** The lines of the line-preserving view, as the section classifier
    splits them, are the lines of the raw text, each normalized as by
    [clean_text], without the lines that are blank, in the order of the
    text. *)
Theorem stripped_lines_of_cleaned (t : string) :
  stripped_lines (clean_text_keep_lines t)
  = filter (fun ln => Str.nonempty ln = true)
      (map clean_text (Str.split "010" t)).
Proof. apply stripped_lines_cleaned. Qed.

(** The two views hold the same words: cleaning the line-preserving view
    flat gives the flat view of the raw text. *)
Theorem clean_text_of_kept_lines (t : string) :
  words (clean_text_keep_lines t) = words t
  ∧ clean_text (clean_text_keep_lines t) = clean_text t.
Proof.
  assert (Hw : words (clean_text_keep_lines t) = words t).
  { rewrite clean_text_keep_lines_eq, words_join_lines, words_nonblank_lines.
    rewrite <- (join_split t) at 2. rewrite words_join_lines.
    f_equal. rewrite map_map. apply map_ext. intros l.
    apply words_clean_text. }
  split; [exact Hw|].
  by rewrite (clean_text_words (clean_text_keep_lines t)), Hw,
    <- clean_text_words.
Qed.

End KeepLines.

(** ** What the contact patterns match *)

Section ContactShape.

Lemma take_app_length (x rest : string) :
  Str.take (String.length x) (x +:+ rest) = x.
Proof.
  induction x as [|c x IH]; [by destruct rest|].
  rewrite append_cons. simpl. by rewrite IH.
Qed.

Lemma take_empty (n : nat) : Str.take n "" = ""%string.
Proof. by destruct n. Qed.

(** A repetition matches a run of characters of its class, within its
    bounds, and hands the rest of the text to what follows. *)
Lemma rep_sound (p : ascii → bool) (s : string) :
  ∀ lo hi prev n k m,
    Re.rep p lo hi prev s n k = Some m →
    ∃ x rest,
      s = x +:+ rest ∧ all_chars p x = true ∧ lo ≤ String.length x
      ∧ (∀ h, hi = Some h → String.length x ≤ h)
      ∧ k (last_or prev x) rest (n + String.length x) = Some m.
Proof.
  assert (Hstop : ∀ lo hi prev (s : string) n (k : Re.cont) m,
            match lo with O => k prev s n | S _ => None end = Some m →
            ∃ x rest,
              s = x +:+ rest ∧ all_chars p x = true ∧ lo ≤ String.length x
              ∧ (∀ h, hi = Some h → String.length x ≤ h)
              ∧ k (last_or prev x) rest (n + String.length x) = Some m).
  { intros [|lo] hi prev s0 n k m Hk; [|done].
    exists ""%string, s0. rewrite Nat.add_0_r.
    split_and!; [done | done | done | simpl; lia | done]. }
  induction s as [|c s IH]; intros lo hi prev n k m; cbn [Re.rep].
  - apply Hstop.
  - destruct (p c && Re.room hi) eqn:Hpc; [|apply Hstop].
    apply andb_true_iff in Hpc as [Hp Hroom].
    destruct (Re.rep p (Nat.pred lo) (Nat.pred <$> hi) (Some c) s (S n) k)
      as [m'|] eqn:Hrec; [|apply Hstop].
    intros [= <-].
    apply IH in Hrec as (x & rest & -> & Hall & Hlo & Hhi & Hk).
    exists (String c x), rest. rewrite <- last_or_cons.
    split_and!.
    + done.
    + simpl. by rewrite Hp, Hall.
    + simpl. lia.
    + intros h ->. destruct h as [|h]; [done|].
      specialize (Hhi h eq_refl). simpl. lia.
    + simpl. by rewrite Nat.add_succ_r.
Qed.

Lemma findall_from_elem (r : regex) (s : string) :
  ∀ prev skip e,
    e ∈ Re.findall_from r prev s skip →
    ∃ before after prev' n,
      s = before +:+ after ∧ Re.match_at r prev' after = Some n
      ∧ e = Str.take n after.
Proof.
  induction s as [|c s IH]; intros prev skip e; cbn [Re.findall_from].
  - destruct skip; [|by intros ?%elem_of_nil].
    destruct (Re.match_at r prev "") as [n|] eqn:Hm;
      [|by intros ?%elem_of_nil].
    intros ->%list_elem_of_singleton.
    exists ""%string, ""%string, prev, n. by rewrite take_empty.
  - assert (Hrest : ∀ prev' skip',
              e ∈ Re.findall_from r prev' s skip' →
              ∃ before after prev'' n,
                String c s = before +:+ after
                ∧ Re.match_at r prev'' after = Some n
                ∧ e = Str.take n after).
    { intros prev' skip' (before & after & p & n & -> & Hm & He)%IH.
      by exists (String c before), after, p, n. }
    destruct skip as [|j]; [|apply Hrest].
    destruct (Re.match_at r prev (String c s)) as [[|l]|] eqn:Hm.
    + intros [->|He]%elem_of_cons; [|by eapply Hrest].
      by exists ""%string, (String c s), prev, 0.
    + intros [->|He]%elem_of_cons; [|by eapply Hrest].
      by exists ""%string, (String c s), prev, (S l).
    + apply Hrest.
Qed.

Lemma char_one (x c : ascii) : Char.one x c = true → c = x.
Proof. apply Ascii.eqb_eq. Qed.

Lemma nonempty_length (s : string) : 1 ≤ String.length s → s ≠ ""%string.
Proof. destruct s; simpl; [lia | done]. Qed.

Lemma email_match (prev : option ascii) (s : string) (n : nat) :
  Re.match_at EMAIL_REGEX prev s = Some n →
  ∃ e rest, s = e +:+ rest ∧ n = String.length e ∧ email_shape e.
Proof.
  unfold Re.match_at, EMAIL_REGEX. cbn [Re.run].
  intros (local & r1 & -> & Hlocal & Hl1 & _ & Hk)%rep_sound.
  destruct r1 as [|c1 r1]; [done|].
  destruct (Char.one "@" c1) eqn:Hat; [|done]. apply char_one in Hat as ->.
  apply rep_sound in Hk as (domain & r2 & -> & Hdomain & Hl2 & _ & Hk).
  destruct r2 as [|c2 r2]; [done|].
  destruct (Char.one "." c2) eqn:Hdot; [|done]. apply char_one in Hdot as ->.
  apply rep_sound in Hk as (tld & rest & -> & Htld & Hl3 & _ & Hk).
  injection Hk as <-.
  exists (local +:+ "@" +:+ domain +:+ "." +:+ tld), rest. split_and!.
  - by rewrite ?append_assoc, ?append_cons, ?append_nil_l.
  - repeat (rewrite ?length_append; simpl); lia.
  - exists local, domain, tld.
    split_and!; try done; by apply nonempty_length.
Qed.

Lemma run_chr (p : ascii → bool) (prev : option ascii) (s : string)
    (n : nat) (k : Re.cont) (m : nat) :
  Re.run (Chr p) prev s n k = Some m →
  ∃ c rest, s = String c rest ∧ p c = true ∧ k (Some c) rest (S n) = Some m.
Proof.
  cbn [Re.run]. destruct s as [|c rest]; [done|].
  destruct (p c) eqn:Hc; [|done]. by exists c, rest.
Qed.

Lemma run_opt (r : regex) (prev : option ascii) (s : string)
    (n : nat) (k : Re.cont) (m : nat) :
  Re.run (Opt r) prev s n k = Some m →
  Re.run r prev s n k = Some m ∨ k prev s n = Some m.
Proof.
  cbn [Re.run]. destruct (Re.run r prev s n k); [by left | by right].
Qed.

Lemma run_cat (r1 r2 : regex) (prev : option ascii) (s : string)
    (n : nat) (k : Re.cont) :
  Re.run (Cat r1 r2) prev s n k
  = Re.run r1 prev s n (fun prev' s' n' => Re.run r2 prev' s' n' k).
Proof. reflexivity. Qed.

Lemma run_rep (p : ascii → bool) (lo : nat) (hi : option nat)
    (prev : option ascii) (s : string) (n : nat) (k : Re.cont) :
  Re.run (Rep lo hi p) prev s n k = Re.rep p lo hi prev s n k.
Proof. reflexivity. Qed.

Lemma phone_match (prev : option ascii) (s : string) (n : nat) :
  Re.match_at PHONE_REGEX prev s = Some n →
  ∃ p rest, s = p +:+ rest ∧ n = String.length p ∧ phone_shape p.
Proof.
  assert (Hnumber : ∀ prev' (t : string) n0 m,
            Re.run (Cat (Chr (Char.between 54 57))
                        (Rep 9 (Some 9) Char.isdigit))
              prev' t n0 (fun _ _ n' => Some n') = Some m →
            ∃ d ds rest,
              t = String d ds +:+ rest ∧ m = n0 + 10
              ∧ Char.between 54 57 d = true
              ∧ String.length ds = 9 ∧ all_chars Char.isdigit ds = true).
  { intros prev' t n0 m. rewrite run_cat.
    intros (d & t' & -> & Hd & Hk)%run_chr. rewrite run_rep in Hk.
    apply rep_sound in Hk as (ds & rest & -> & Hds & Hlo & Hhi & Hk).
    specialize (Hhi 9 eq_refl). injection Hk as <-.
    exists d, ds, rest. split_and!; try done; lia. }
  assert (Hrest : ∀ prev' (t : string) n0 m,
            Re.run (Cat (Chr (Char.one "9"))
                   (Cat (Chr (Char.one "1"))
                        (Rep 0 None phone_separator)))
              prev' t n0
              (fun p' s' n' =>
                 Re.run (Cat (Chr (Char.between 54 57))
                             (Rep 9 (Some 9) Char.isdigit))
                   p' s' n' (fun _ _ n'' => Some n'')) = Some m →
            ∃ seps d ds rest,
              t = "91" +:+ seps +:+ String d ds +:+ rest
              ∧ m = n0 + 2 + String.length seps + 10
              ∧ all_chars phone_separator seps = true
              ∧ Char.between 54 57 d = true
              ∧ String.length ds = 9 ∧ all_chars Char.isdigit ds = true).
  { intros prev' t n0 m. rewrite run_cat.
    intros (c1 & t1 & -> & ->%char_one & Hk)%run_chr. rewrite run_cat in Hk.
    apply run_chr in Hk as (c2 & t2 & -> & ->%char_one & Hk).
    rewrite run_rep in Hk.
    apply rep_sound in Hk as (seps & t3 & -> & Hseps & _ & _ & Hk).
    apply Hnumber in Hk as (d & ds & rest & -> & -> & Hd & Hlen & Hds).
    exists seps, d, ds, rest. split_and!; try done. lia. }
  unfold Re.match_at, PHONE_REGEX. rewrite run_cat.
  intros [Hk|Hk]%run_opt.
  - rewrite run_cat in Hk. apply run_opt in Hk as [Hk|Hk].
    + apply run_chr in Hk as (c0 & t0 & -> & ->%char_one & Hk).
      apply Hrest in Hk as (seps & d & ds & rest & -> & -> & Hseps & Hd
                            & Hlen & Hds).
      exists ("+91" +:+ seps +:+ String d ds), rest. split_and!.
      * by rewrite ?append_assoc, ?append_cons, ?append_nil_l.
      * repeat (rewrite ?length_append; simpl); lia.
      * exists ("+91" +:+ seps)%string, d, ds. split_and!; try done.
        right. exists "+"%string, seps. split_and!; [done | by right | done].
    + apply Hrest in Hk as (seps & d & ds & rest & -> & -> & Hseps & Hd
                            & Hlen & Hds).
      exists ("91" +:+ seps +:+ String d ds), rest. split_and!.
      * by rewrite ?append_assoc, ?append_cons, ?append_nil_l.
      * repeat (rewrite ?length_append; simpl); lia.
      * exists ("91" +:+ seps)%string, d, ds. split_and!; try done.
        right. exists ""%string, seps. split_and!; [done | by left | done].
  - apply Hnumber in Hk as (d & ds & rest & -> & -> & Hd & Hlen & Hds).
    exists (String d ds), rest. split_and!; [done | simpl; lia |].
    exists ""%string, d, ds. split_and!; try done. by left.
Qed.

Lemma findall_email (text e : string) :
  e ∈ Re.findall EMAIL_REGEX text → email_shape e ∧ occurs_in e text.
Proof.
  intros (before & after & prev & n & -> & Hm & ->)%findall_from_elem.
  apply email_match in Hm as (e & rest & -> & -> & He).
  rewrite take_app_length. split; [done|]. by exists before, rest.
Qed.

Lemma findall_phone (text p : string) :
  p ∈ Re.findall PHONE_REGEX text → phone_shape p ∧ occurs_in p text.
Proof.
  intros (before & after & prev & n & -> & Hm & ->)%findall_from_elem.
  apply phone_match in Hm as (p & rest & -> & -> & Hp).
  rewrite take_app_length. split; [done|]. by exists before, rest.
Qed.

Lemma first_or_not_found_elem (matches : list string) :
  first_or_not_found matches = "Not found"%string ∧ matches = []
  ∨ first_or_not_found matches ∈ matches.
Proof. destruct matches; [by left | right; constructor]. Qed.

Lemma dict_fromkeys_nil (xs : list string) : dict_fromkeys xs = [] ↔ xs = [].
Proof.
  destruct (dict_fromkeys_keeps xs) as (_ & Hel & _). split.
  - intros Hd. destruct xs as [|x xs]; [done|].
    assert (Hx : x ∈ dict_fromkeys (x :: xs)) by (apply Hel; constructor).
    rewrite Hd in Hx. by apply elem_of_nil in Hx.
  - by intros ->.
Qed.

Lemma email_shape_at (e : string) : email_shape e → occurs_in "@" e.
Proof.
  intros (local & domain & tld & -> & _). by exists local, (domain +:+ "." +:+ tld)%string.
Qed.

Lemma phone_shape_length (p : string) : phone_shape p → 10 ≤ String.length p.
Proof.
  intros (prefix & d & ds & -> & _ & _ & Hlen & _).
  rewrite length_append. simpl. lia.
Qed.

Lemma all_chars_app (q : ascii → bool) (a b : string) :
  all_chars q (a +:+ b) = all_chars q a && all_chars q b.
Proof.
  induction a as [|c a IH]; [done|]. rewrite append_cons. simpl.
  by rewrite IH, andb_assoc.
Qed.

Lemma occurs_in_trans (a b c : string) :
  occurs_in a b → occurs_in b c → occurs_in a c.
Proof.
  intros (x & y & ->) (u & v & ->). exists (u +:+ x), (y +:+ v).
  by rewrite !append_assoc.
Qed.

(** Every e-mail address that [extract_basic_info] reports, in the list
    and as the primary address, is a piece of the text of the shape
    local part, at sign, domain, dot, top-level domain, with a non-empty
    local part and domain and at least two ASCII letters at the end. *)
Theorem extracted_emails_well_formed (text : string) :
  let info := extract_basic_info text in
  (∀ e, e ∈ emails info → email_shape e ∧ occurs_in e text)
  ∧ (email info = "Not found"%string
     ∨ email_shape (email info) ∧ occurs_in (email info) text).
Proof.
  simpl. destruct (dict_fromkeys_keeps (Re.findall EMAIL_REGEX text))
    as (_ & Hel & _). split.
  - intros e He%Hel. by apply findall_email.
  - destruct (first_or_not_found_elem (Re.findall EMAIL_REGEX text))
      as [[-> _]|He]; [by left | right]. by apply findall_email.
Qed.

(** Every phone number that [extract_basic_info] reports, in the list and
    as the primary number, is a piece of the text that consists of an
    optional country prefix (an optional plus sign, 91, separators) and
    exactly ten digits, the first of them from 6 to 9. *)
Theorem extracted_phones_well_formed (text : string) :
  let info := extract_basic_info text in
  (∀ p, p ∈ phones info → phone_shape p ∧ occurs_in p text)
  ∧ (phone info = "Not found"%string
     ∨ phone_shape (phone info) ∧ occurs_in (phone info) text).
Proof.
  simpl. destruct (dict_fromkeys_keeps (Re.findall PHONE_REGEX text))
    as (_ & Hel & _). split.
  - intros e He%Hel. by apply findall_phone.
  - destruct (first_or_not_found_elem (Re.findall PHONE_REGEX text))
      as [[-> _]|He]; [by left | right]. by apply findall_phone.
Qed.

(** The sentinel is never mistaken for a match: the primary e-mail (resp.
    phone) is the string Not found exactly when the list of all e-mails
    (resp. phones) is empty. *)
Theorem not_found_iff_no_match (text : string) :
  let info := extract_basic_info text in
  (email info = "Not found"%string ↔ emails info = [])
  ∧ (phone info = "Not found"%string ↔ phones info = []).
Proof.
  simpl. rewrite !dict_fromkeys_nil. split; split.
  - destruct (first_or_not_found_elem (Re.findall EMAIL_REGEX text))
      as [[_ ->]|He]; [done|].
    intros Heq. rewrite Heq in He.
    apply findall_email in He as [Hat%email_shape_at _].
    by apply contains_spec in Hat.
  - by intros ->.
  - destruct (first_or_not_found_elem (Re.findall PHONE_REGEX text))
      as [[_ ->]|He]; [done|].
    intros Heq. rewrite Heq in He.
    apply findall_phone in He as [Hlen%phone_shape_length _].
    simpl in Hlen. lia.
  - by intros ->.
Qed.

(** A text without an at sign yields no e-mail and a text without a digit
    yields no phone: the field is Not found and the list is empty. *)
Theorem no_marker_no_contact (text : string) :
  let info := extract_basic_info text in
  (Str.contains "@" text = false →
   email info = "Not found"%string ∧ emails info = [])
  ∧ (all_chars (fun c => negb (Char.isdigit c)) text = true →
     phone info = "Not found"%string ∧ phones info = []).
Proof.
  simpl. split.
  - intros Hat.
    assert (Hnone : Re.findall EMAIL_REGEX text = []).
    { destruct (Re.findall EMAIL_REGEX text) as [|e l] eqn:Hf; [done|].
      assert (He : e ∈ Re.findall EMAIL_REGEX text)
        by (rewrite Hf; constructor).
      apply findall_email in He as [He%email_shape_at Hin].
      pose proof (occurs_in_trans _ _ _ He Hin) as Hoc.
      apply contains_spec in Hoc. congruence. }
    by rewrite Hnone.
  - intros Hdigits.
    assert (Hnone : Re.findall PHONE_REGEX text = []).
    { destruct (Re.findall PHONE_REGEX text) as [|p l] eqn:Hf; [done|].
      assert (Hp : p ∈ Re.findall PHONE_REGEX text)
        by (rewrite Hf; constructor).
      apply findall_phone in Hp
        as [(prefix & d & ds & -> & _ & Hd & _) (a & b & ->)].
      rewrite !all_chars_app in Hdigits. cbn [all_chars] in Hdigits.
      assert (Hdig : Char.isdigit d = true).
      { unfold Char.isdigit, Char.between in *.
        apply andb_true_iff in Hd as [H1%Nat.leb_le H2].
        rewrite H2, andb_true_r. apply Nat.leb_le. lia. }
      rewrite Hdig in Hdigits. cbn [negb] in Hdigits.
      by rewrite !andb_false_r, ?andb_false_l in Hdigits. }
    by rewrite Hnone.
Qed.

Lemma no_marker_no_contact_witness :
  let info := extract_basic_info "call me maybe" in
  (email info = "Not found"%string ∧ emails info = [])
  ∧ (phone info = "Not found"%string ∧ phones info = []).
Proof.
  split.
  - apply (proj1 (no_marker_no_contact "call me maybe")). reflexivity.
  - apply (proj2 (no_marker_no_contact "call me maybe")). reflexivity.
Defined.

Lemma extracted_emails_well_formed_witness :
  email_shape "a.b@c.de" ∧ occurs_in "a.b@c.de" "mail a.b@c.de now".
Proof.
  apply (proj1 (extracted_emails_well_formed "mail a.b@c.de now")).
  vm_compute. constructor.
Defined.

Lemma extracted_phones_well_formed_witness :
  phone_shape "+91-9876543210"
  ∧ occurs_in "+91-9876543210" "tel +91-9876543210.".
Proof.
  apply (proj1 (extracted_phones_well_formed "tel +91-9876543210.")).
  vm_compute. constructor.
Defined.

End ContactShape.

(** ** Where a skill is found *)

Section SkillDetection.

Lemma lower_lower (c : ascii) : Char.lower (Char.lower c) = Char.lower c.
Proof. destruct c as [[] [] [] [] [] [] [] []]; vm_compute; reflexivity. Qed.

Lemma run_literal_eq (s : string) :
  ∀ prev t n k,
    Re.run (Re.literal_ignorecase s) prev t n k
    = if ci_prefix s t
      then k (last_or prev (Str.take (String.length s) t))
             (drop_chars (String.length s) t) (n + String.length s)
      else None.
Proof.
  induction s as [|c s IH]; intros prev t n k.
  - cbn. rewrite Nat.add_0_r. by destruct t.
  - cbn [Re.literal_ignorecase]. rewrite run_cat.
    destruct t as [|d t]; [done|]. cbn [Re.run ci_prefix].
    destruct (Ascii.eqb (Char.lower d) (Char.lower c)); [|done].
    rewrite IH. cbn [andb String.length Str.take drop_chars].
    by rewrite <- last_or_cons, Nat.add_succ_r.
Qed.

Lemma match_at_skill (s : string) (prev : option ascii) (t : string) :
  Re.match_at (skill_pattern s) prev t
  = if skill_at s prev t then Some (String.length s) else None.
Proof.
  unfold Re.match_at, skill_pattern, skill_at. rewrite run_cat.
  cbn [Re.run]. destruct (xorb (Re.wordy prev) (Re.wordy (Re.peek t)));
    [|done].
  rewrite run_literal_eq. destruct (ci_prefix s t); [|done].
  cbn [andb Re.run]. by destruct (xorb _ _).
Qed.

Lemma search_from_found (r : regex) (before : string) :
  ∀ prev after n,
    Re.match_at r (last_or prev before) after = Some n →
    Re.search_from r prev (before +:+ after) = true.
Proof.
  induction before as [|c before IH]; intros prev after n Hm.
  - rewrite append_nil_l. unfold last_or in Hm. simpl in Hm.
    destruct after; simpl; by rewrite Hm.
  - rewrite append_cons. cbn [Re.search_from].
    destruct (Re.match_at r prev _); [done|].
    apply (IH (Some c) after n). by rewrite (last_or_cons prev).
Qed.

Lemma lower_app (a b : string) :
  Str.lower (a +:+ b) = Str.lower a +:+ Str.lower b.
Proof.
  induction a as [|c a IH]; [done|]. rewrite append_cons. simpl.
  by rewrite IH.
Qed.

Lemma peek_lower (t : string) :
  Re.wordy (Re.peek (Str.lower t)) = Re.wordy (Re.peek t).
Proof. destruct t as [|c t]; [done|]. simpl. apply isword_lower. Qed.









Lemma ci_prefix_app (s x rest : string) :
  Str.lower x = Str.lower s → ci_prefix s (x +:+ rest) = true.
Proof.
  revert x. induction s as [|c s IH]; intros [|d x]; try done.
  rewrite append_cons. simpl. intros [= Hd Hx].
  rewrite Hd, Ascii.eqb_refl. by apply IH.
Qed.

Lemma drop_app_length (x rest : string) :
  drop_chars (String.length x) (x +:+ rest) = rest.
Proof.
  induction x as [|c x IH]; [by destruct rest|]. by rewrite append_cons.
Qed.

Lemma peek_app (x rest : string) :
  x ≠ ""%string → Re.peek (x +:+ rest) = Re.peek x.
Proof. by destruct x. Qed.

Lemma skills_well_formed :
  Forall (fun s => s ≠ ""%string ∧ Str.lower s = s
                   ∧ Re.wordy (Re.peek s) = true) SKILLS.
Proof. repeat constructor; done. Qed.

Lemma skills_ending_outside :
  ∀ s, s ∈ SKILLS → ends_in_nonword s = true → s ∈ ["c++"; "c#"]%string.
Proof.
  intros s Hs He.
  assert (H : s ∈ filter (fun s => ends_in_nonword s = true) SKILLS)
    by (by apply list_elem_of_filter).
  by vm_compute in H.
Qed.

(** A vocabulary skill other than c++ and c#, written in any letter case
    and standing between characters that are no word characters (or at an
    end of the text), is always reported. *)
Theorem skill_as_word_detected (s before x after : string) :
  s ∈ SKILLS → s ∉ ["c++"; "c#"]%string →
  Str.lower x = s →
  Re.wordy (last_char before) = false →
  Re.wordy (Re.peek after) = false →
  s ∈ extract_skills (before +:+ x +:+ after).
Proof.
  intros Hs Hnot Hx Hbefore Hafter.
  pose proof skills_well_formed as Hwf. rewrite Forall_forall in Hwf.
  destruct (Hwf s Hs) as (Hne & Hlow & Hfirst).
  assert (Hend : ends_in_nonword s = false).
  { destruct (ends_in_nonword s) eqn:He; [|done].
    by apply skills_ending_outside in He. }
  assert (Hlen : String.length x = String.length s)
    by (by rewrite <- Hx, length_lower).
  assert (Hxne : x ≠ ""%string) by (intros ->; by rewrite <- Hx in Hne).
  apply extract_skills_elem. split; [done|].
  apply (search_from_found _ before None (x +:+ after) (String.length s)).
  rewrite match_at_skill.
  assert (Hat : skill_at s (last_or None before) (x +:+ after) = true);
    [|by rewrite Hat].
  unfold skill_at. rewrite <- Hlen, take_app_length, drop_app_length.
  rewrite ci_prefix_app by (by rewrite Hx, Hlow).
  rewrite peek_app by done. rewrite Hafter.
  assert (Hp : Re.wordy (last_or None before) = false).
  { unfold last_or. by destruct (last_char before). }
  rewrite Hp.
  assert (Hpk : Re.wordy (Re.peek x) = true).
  { by rewrite <- peek_lower, Hx. }
  rewrite Hpk.
  assert (Hl : Re.wordy (last_or (last_or None before) x) = true).
  { unfold ends_in_nonword in Hend.
    assert (Hlc : last_char (Str.lower x) = last_char s) by (by rewrite Hx).
    rewrite last_char_lower in Hlc. unfold last_or at 1.
    destruct (last_char x) as [c|] eqn:Hlx.
    - destruct (last_char s) as [d|]; [|done].
      injection Hlc as Hlc. simpl. rewrite <- isword_lower, Hlc.
      by apply negb_false_iff.
    - destruct x as [|x0 x']; [done|]. by rewrite last_char_cons in Hlx. }
  by rewrite Hl.
Qed.

Lemma skill_as_word_detected_witness :
  "python"%string ∈ extract_skills ("I use " +:+ "PyThon" +:+ ", daily").
Proof.
  apply (skill_as_word_detected "python" "I use " "PyThon" ", daily").
  - vm_compute. constructor.
  - intros H. vm_compute in H.
    apply elem_of_cons in H as [H|H]; [discriminate H|].
    apply elem_of_cons in H as [H|H]; [discriminate H|].
    by apply elem_of_nil in H.
  - reflexivity.
  - reflexivity.
  - reflexivity.
Defined.

End SkillDetection.

(** ** What the section classifier keeps *)

Section SectionLists.

Local Abbreviation insert_key :=
  (fun (d : list string) (k : string) =>
     if bool_decide (k ∈ d) then d else d ++ [k]).

Lemma dedup_loop_foldl (seq : list string) :
  ∀ (seen : gset string) (out : list string),
    (∀ x, x ∈ seen ↔ x ∈ out) →
    dedup_loop seq seen out = foldl insert_key out seq.
Proof.
  induction seq as [|x seq IH]; intros seen out Hseen; [done|].
  cbn [dedup_loop foldl].
  destruct (decide (x ∈ seen)) as [Hx|Hx].
  - rewrite bool_decide_true by done.
    rewrite (bool_decide_true (x ∈ out)) by (by apply Hseen).
    by apply IH.
  - rewrite bool_decide_false by done.
    rewrite (bool_decide_false (x ∈ out)) by (by rewrite <- Hseen).
    apply IH. intros z.
    rewrite elem_of_union, elem_of_singleton, elem_of_app,
      list_elem_of_singleton, Hseen. tauto.
Qed.

Lemma dedup_dict_fromkeys (seq : list string) : dedup seq = dict_fromkeys seq.
Proof.
  unfold dedup, dict_fromkeys. apply dedup_loop_foldl.
  intros x. rewrite elem_of_empty, elem_of_nil. tauto.
Qed.

(** The helper [dedup] of the section classifier and the idiom
    [list(dict.fromkeys(...))] of the contact extraction compute the same
    list: every element once, at the place of its first occurrence. *)
Theorem dedup_is_dict_fromkeys (seq : list string) :
  dedup seq = dict_fromkeys seq
  ∧ keeps_first_seen seq (dedup seq).
Proof.
  split; [apply dedup_dict_fromkeys|].
  rewrite dedup_dict_fromkeys. apply dict_fromkeys_keeps.
Qed.

Lemma has_keyword_length (keywords : list string) (line : string) (n : nat) :
  Forall (fun kw => n ≤ String.length kw) keywords →
  has_keyword keywords line → n ≤ String.length line.
Proof.
  intros Hall (kw & Hkw & Hin). apply occurs_in_length in Hin.
  rewrite length_lower in Hin. rewrite Forall_forall in Hall.
  specialize (Hall kw Hkw). lia.
Qed.

Lemma goes_to_education_spec (line : string) :
  goes_to_education line = true ↔
  3 ≤ String.length line ∧ has_keyword EDU_KEYWORDS line.
Proof.
  unfold goes_to_education.
  by rewrite andb_true_iff, Nat.leb_le, length_lower, any_keyword_spec.
Qed.

Lemma goes_to_experience_spec (line : string) :
  goes_to_experience line = true ↔
  has_keyword EXP_KEYWORDS line ∧ ¬ has_keyword EDU_KEYWORDS line.
Proof.
  unfold goes_to_experience.
  rewrite !andb_true_iff, negb_true_iff, Nat.leb_le, length_lower,
    any_keyword_spec, <- not_true_iff_false, any_keyword_spec.
  split; [tauto|]. intros [Hexp Hedu]. split_and!; try done.
  apply (has_keyword_length EXP_KEYWORDS); [|done].
  repeat constructor; simpl; lia.
Qed.

(** Which lines the classifier keeps: the education list holds exactly the
    stripped non-blank lines of the text that have three characters or
    more and contain an education keyword in any case; the experience list
    holds exactly those that contain an experience keyword and no
    education keyword.  A line shorter than three characters is never
    kept, even when it is a keyword. *)
Theorem extract_sections_membership (text line : string) :
  ((line ∈ (extract_sections text).1) ↔
   (line ∈ stripped_lines text
    ∧ 3 ≤ String.length line ∧ has_keyword EDU_KEYWORDS line))
  ∧ ((line ∈ (extract_sections text).2) ↔
     (line ∈ stripped_lines text
      ∧ has_keyword EXP_KEYWORDS line ∧ ¬ has_keyword EDU_KEYWORDS line))
  ∧ (String.length line < 3 →
     (line ∉ (extract_sections text).1)
     ∧ (line ∉ (extract_sections text).2)).
Proof.
  rewrite education_elem, experience_elem, goes_to_education_spec,
    goes_to_experience_spec.
  split_and!; [done | done |].
  intros Hshort. split.
  - intros [_ [Hlen _]]. lia.
  - intros [_ [Hexp _]].
    assert (3 ≤ String.length line); [|lia].
    apply (has_keyword_length EXP_KEYWORDS); [|done].
    repeat constructor; simpl; lia.
Qed.

Lemma first_index_Some_elem (x : string) (l : list string) (p : nat) :
  first_index x l = Some p → x ∈ l.
Proof.
  revert p. induction l as [|w l IH]; intros p; [done|]. simpl.
  destruct (String.eqb_spec x w) as [->|_]; [left|].
  destruct (first_index x l) as [q|]; [|done]. intros _. right. by eapply IH.
Qed.

Lemma first_index_filter (P : string → Prop) `{∀ x, Decision (P x)}
    (l : list string) :
  ∀ x y p q,
    first_index x (filter P l) = Some p →
    first_index y (filter P l) = Some q → p < q →
    ∃ p' q', first_index x l = Some p' ∧ first_index y l = Some q' ∧ p' < q'.
Proof.
  induction l as [|z l IH]; intros x y p q; [done|].
  rewrite filter_cons. destruct (decide (P z)) as [Hz|Hz].
  - cbn [first_index].
    destruct (String.eqb_spec x z) as [->|Hxz];
      destruct (String.eqb_spec y z) as [->|Hyz].
    + intros [= <-] [= <-]. lia.
    + intros [= <-].
      destruct (first_index y (filter P l)) as [q0|] eqn:Hq; [|done].
      intros _ _.
      apply first_index_Some_elem, list_elem_of_filter in Hq as [_ Hy].
      destruct (first_index_elem y l Hy) as [q' ->].
      exists 0, (S q'). split_and!; [done | done | lia].
    + intros _ [= <-]. lia.
    + destruct (first_index x (filter P l)) as [p0|] eqn:Hp; [|done].
      destruct (first_index y (filter P l)) as [q0|] eqn:Hq; [|done].
      intros [= <-] [= <-] Hlt.
      destruct (IH x y p0 q0 Hp Hq) as (p' & q' & -> & -> & Hlt');
        [lia|].
      exists (S p'), (S q'). split_and!; [done | done | lia].
  - intros Hp Hq Hlt.
    assert (Hin : ∀ w r, first_index w (filter P l) = Some r → w ≠ z).
    { intros w r Hw ->.
      by apply first_index_Some_elem, list_elem_of_filter in Hw as [? _]. }
    pose proof (Hin x p Hp) as Hxz. pose proof (Hin y q Hq) as Hyz.
    destruct (IH x y p q Hp Hq Hlt) as (p' & q' & Hp' & Hq' & Hlt').
    exists (S p'), (S q'). cbn [first_index].
    destruct (String.eqb_spec x z) as [?|_]; [done|].
    destruct (String.eqb_spec y z) as [?|_]; [done|].
    rewrite Hp', Hq'. split_and!; [done | done | lia].
Qed.

Lemma sections_first_seen (P : string → Prop) `{∀ x, Decision (P x)}
    (lines : list string) :
  NoDup (dedup (filter P lines))
  ∧ first_seen_order lines (dedup (filter P lines)).
Proof.
  rewrite dedup_dict_fromkeys.
  destruct (dict_fromkeys_keeps (filter P lines)) as (Hnd & _ & Hord).
  split; [done|]. intros i j x y Hi Hj Hij.
  destruct (Hord i j x y Hi Hj Hij) as (p & q & Hp & Hq & Hpq).
  by eapply first_index_filter.
Qed.

(** Each of the two lists of [extract_sections] holds no line twice, and
    its lines stand in the order in which they first occur among the
    lines of the text. *)
Theorem extract_sections_first_seen (text : string) :
  (NoDup (extract_sections text).1
   ∧ first_seen_order (stripped_lines text) (extract_sections text).1)
  ∧ (NoDup (extract_sections text).2
     ∧ first_seen_order (stripped_lines text) (extract_sections text).2).
Proof.
  unfold extract_sections. rewrite classify_filter. simpl.
  split; apply sections_first_seen.
Qed.

Lemma extract_sections_membership_witness :
  let line := "be"%string in
  (line ∉ (extract_sections "be").1) ∧ (line ∉ (extract_sections "be").2).
Proof.
  intros line.
  apply (proj2 (proj2 (extract_sections_membership "be" line))).
  simpl. lia.
Defined.

End SectionLists.

(** ** The document reader *)

Section ReaderFacts.
Import Reader.

(** How a read failure surfaces: for a path that does not exist, for a
    file whose extension is neither .pdf nor .docx in any letter case, and
    for a file that the PDF or DOCX library fails to read, [parse_resume]
    returns the error record that carries the message of the reader, and
    extracts nothing. *)
Theorem read_failure_is_parse_error
    (extension : string → string) (file_system : string → option file)
    (file_path : string) :
  (file_system file_path = None →
   parse_resume_file extension file_system file_path
   = ParseError "File not found!")
  ∧ (∀ f, file_system file_path = Some f →
          Str.lower (extension file_path) ≠ ".pdf"%string →
          Str.lower (extension file_path) ≠ ".docx"%string →
          parse_resume_file extension file_system file_path
          = ParseError "Unsupported file type!")
  ∧ (∀ f e, file_system file_path = Some f →
            Str.lower (extension file_path) = ".pdf"%string →
            as_pdf f = Raised e →
            parse_resume_file extension file_system file_path
            = ParseError ("PDF error: " +:+ e))
  ∧ (∀ f e, file_system file_path = Some f →
            Str.lower (extension file_path) = ".docx"%string →
            as_docx f = Raised e →
            parse_resume_file extension file_system file_path
            = ParseError ("DOCX error: " +:+ e)).
Proof.
  unfold parse_resume_file, read_resume. split_and!.
  - by intros ->.
  - intros f -> Hpdf Hdocx.
    apply String.eqb_neq in Hpdf, Hdocx. by rewrite Hpdf, Hdocx.
  - intros f e -> -> ->. reflexivity.
  - intros f e -> -> ->. reflexivity.
Qed.

Lemma read_failure_is_parse_error_witness :
  let fs := fun path : string =>
    if String.eqb path "cv.PDF"
    then Some {| as_pdf := Raised "cannot open broken document";
                 as_docx := Raised "not a zip file" |}
    else None in
  let ext := fun path : string => ".PDF"%string in
  Reader.parse_resume_file ext fs "missing.pdf" = ParseError "File not found!"
  ∧ Reader.parse_resume_file ext fs "cv.PDF"
    = ParseError "PDF error: cannot open broken document".
Proof.
  intros fs ext. split.
  - apply (proj1 (read_failure_is_parse_error ext fs "missing.pdf")).
    reflexivity.
  - apply (proj1 (proj2 (proj2 (read_failure_is_parse_error ext fs "cv.PDF")))
             {| as_pdf := Raised "cannot open broken document";
                as_docx := Raised "not a zip file" |}
             "cannot open broken document"%string);
      reflexivity.
Defined.

Lemma words_app_blank_end (a b : string) :
  (a = ""%string ∨ ∃ a' c, a = a' +:+ String c "" ∧ Char.isspace c = true) →
  words (a +:+ b) = words a ++ words b.
Proof.
  intros [->|(a' & c & -> & Hc)]; [done|].
  rewrite append_assoc, append_cons, append_nil_l.
  rewrite !words_app_space by done. by rewrite app_nil_r.
Qed.

Lemma words_join_ws (c : ascii) (ls : list string) :
  Char.isspace c = true →
  words (Str.join (String c "") ls) = concat (map words ls).
Proof.
  intros Hc. induction ls as [|x ls IH]; [done|].
  destruct ls as [|y ls]; [simpl; by rewrite app_nil_r|].
  rewrite join_cons_cons, append_cons, append_nil_l, words_app_space by done.
  by rewrite IH.
Qed.

Lemma words_lstrip (s : string) : words (Str.lstrip s) = words s.
Proof.
  induction s as [|c s IH]; [done|]. cbn [Str.lstrip words].
  destruct (Char.isspace c) eqn:Hc; [exact IH|]. cbn [words]. by rewrite Hc.
Qed.

Lemma rstrip_first (s : string) (d : ascii) (r : string) :
  Str.rstrip s = String d r → ∃ t, s = String d t.
Proof.
  destruct s as [|c s]; [done|]. cbn [Str.rstrip].
  destruct (Str.rstrip s).
  - destruct (Char.isspace c); [done|]. intros [= <- _]. eauto.
  - intros [= <- _]. eauto.
Qed.

Lemma words_rstrip (s : string) : words (Str.rstrip s) = words s.
Proof.
  induction s as [|c s IH]; [done|]. cbn [Str.rstrip].
  destruct (Str.rstrip s) as [|d r] eqn:Hr.
  - cbn [words] in *. destruct (Char.isspace c) eqn:Hc; [done|].
    cbn [words starts_blank]. rewrite Hc, <- IH.
    by destruct (starts_blank s).
  - apply rstrip_first in Hr as Hs. destruct Hs as [t ->].
    cbn [words] in *. destruct (Char.isspace c); [exact IH|].
    cbn [starts_blank]. destruct (Char.isspace d); by rewrite IH.
Qed.

Lemma words_strip (s : string) : words (Str.strip s) = words s.
Proof. unfold Str.strip. by rewrite words_rstrip, words_lstrip. Qed.

Lemma words_of_pages (pages : list string) :
  ∀ text,
    (text = ""%string
     ∨ ∃ a' c, text = a' +:+ String c "" ∧ Char.isspace c = true) →
    words (foldl (fun text page => text +:+ page +:+ NEWLINE) text pages)
    = words text ++ concat (map words pages).
Proof.
  induction pages as [|page pages IH]; intros text Htext; cbn [foldl].
  - simpl. by rewrite app_nil_r.
  - rewrite IH.
    + rewrite words_app_blank_end by done. unfold NEWLINE.
      rewrite words_app_space by done. simpl.
      by rewrite app_nil_r, <- app_assoc.
    + right. exists (text +:+ page), "010"%char. split; [|done].
      by rewrite append_assoc.
Qed.

Lemma words_of_rows (rows : list (list string)) :
  ∀ text,
    words (foldl (fun text row => text +:+ " " +:+ Str.join " " row) text rows)
    = words text ++ concat (map words (concat rows)).
Proof.
  induction rows as [|row rows IH]; intros text; cbn [foldl].
  - simpl. by rewrite app_nil_r.
  - rewrite IH.
    change (" " +:+ Str.join " " row) with (String " " (Str.join " " row)).
    rewrite words_app_space by done.
    rewrite (words_join_ws " ") by done.
    simpl. by rewrite map_app, concat_app, app_assoc.
Qed.

Lemma words_of_tables (tables : list (list (list string))) :
  ∀ text,
    words (foldl (fun text table =>
                    foldl (fun text row => text +:+ " " +:+ Str.join " " row)
                      text table) text tables)
    = words text ++ concat (map words (concat (concat tables))).
Proof.
  induction tables as [|table tables IH]; intros text; cbn [foldl].
  - simpl. by rewrite app_nil_r.
  - rewrite IH, words_of_rows. simpl.
    by rewrite concat_app, map_app, concat_app, app_assoc.
Qed.

Lemma words_nonblank_paragraphs (paras : list string) :
  concat (map words
            (filter (fun para => Str.nonempty (Str.strip para) = true) paras))
  = concat (map words paras).
Proof.
  induction paras as [|p paras IH]; [done|]. rewrite filter_cons.
  destruct (decide (Str.nonempty (Str.strip p) = true)) as [Hp|Hp].
  - simpl. by rewrite IH.
  - simpl. rewrite IH. rewrite <- (words_strip p).
    destruct (Str.strip p); [done|]. by destruct Hp.
Qed.

(** Reading keeps the words apart and in order.  The text read from a PDF
    holds the words of its pages, page after page; the text read from a
    DOCX file holds the words of its paragraphs and then the words of its
    table cells, table by table and row by row.  No word is lost and no
    two words run together across a page, paragraph, row or cell. *)
Theorem reader_keeps_words :
  (∀ pages, words (read_pdf (Done pages)) = concat (map words pages))
  ∧ (∀ doc,
       words (read_docx (Done doc))
       = concat (map words (paragraphs doc))
         ++ concat (map words (concat (concat (tables doc))))).
Proof.
  split.
  - intros pages. unfold read_pdf. rewrite words_of_pages by (by left). done.
  - intros doc. unfold read_docx.
    rewrite words_of_tables. unfold NEWLINE.
    rewrite (words_join_ws "010") by done.
    by rewrite words_nonblank_paragraphs.
Qed.

End ReaderFacts.

(** ** The record and the raw text *)

Section RecordFacts.

Local Abbreviation insert_key :=
  (fun (d : list string) (k : string) =>
     if bool_decide (k ∈ d) then d else d ++ [k]).

Lemma parse_resume_fields (raw_text : string) (data : parsed_data) :
  parse_resume raw_text = Parsed data →
  is_read_error raw_text = false
  ∧ contact data
    = (let info := extract_basic_info (clean_text raw_text) in
       {| contact_email := email info; contact_phone := phone info;
          all_emails := emails info; all_phones := phones info |})
  ∧ skills data = extract_skills (clean_text raw_text)
  ∧ education data = (extract_sections (clean_text_keep_lines raw_text)).1
  ∧ experience data = (extract_sections (clean_text_keep_lines raw_text)).2
  ∧ summary data
    = {| total_skills_found := length (skills data);
         education_lines := length (education data);
         experience_lines := length (experience data);
         raw_text_length := String.length raw_text |}.
Proof.
  unfold parse_resume, parse_resume_with.
  destruct (is_read_error raw_text); [intros [=]|].
  destruct (extract_sections (clean_text_keep_lines raw_text)) as [edu exp].
  intros Hparsed.
  assert (Hdata : data = match Parsed data with
                         | Parsed d => d
                         | ParseError _ => data
                         end) by reflexivity.
  rewrite <- Hparsed in Hdata. subst data.
  cbn [contact skills education experience summary fst snd].
  repeat split.
Qed.

Lemma insert_key_foldl_length (xs : list string) :
  ∀ d, length (foldl insert_key d xs) ≤ length d + length xs.
Proof.
  induction xs as [|x xs IH]; intros d; cbn [foldl]; [simpl; lia|].
  case_bool_decide.
  - specialize (IH d). simpl. lia.
  - specialize (IH (d ++ [x])). rewrite length_app in IH. simpl in *. lia.
Qed.

Lemma dedup_length (seq : list string) : length (dedup seq) ≤ length seq.
Proof.
  rewrite dedup_dict_fromkeys. apply (insert_key_foldl_length seq []).
Qed.

Lemma filter_disjoint_length (P Q : string → Prop)
    `{∀ x, Decision (P x)} `{∀ x, Decision (Q x)} (l : list string) :
  (∀ x, P x → Q x → False) →
  length (filter P l) + length (filter Q l) ≤ length l.
Proof.
  intros Hdisj. induction l as [|x l IH]; [done|]. rewrite !filter_cons.
  destruct (decide (P x)) as [HP|HP]; destruct (decide (Q x)) as [HQ|HQ];
    simpl; try lia.
  by destruct (Hdisj x).
Qed.

Lemma filter_length_le (P : string → Prop) `{∀ x, Decision (P x)}
    (l : list string) :
  length (filter P l) ≤ length l.
Proof.
  induction l as [|x l IH]; [done|]. rewrite filter_cons.
  destruct (decide (P x)); simpl; lia.
Qed.

(** The section lists of a record come from the lines of the raw text:
    each education or experience line is not empty and is the normalized
    form, as by [clean_text], of a line of the raw text; and the two line
    counts of the summary together do not exceed the number of lines of
    the raw text. *)
Theorem parsed_sections_from_raw_lines (raw_text : string)
    (data : parsed_data) :
  parse_resume raw_text = Parsed data →
  (∀ line, line ∈ education data ∨ line ∈ experience data →
           line ≠ ""%string
           ∧ ∃ raw_line, raw_line ∈ Str.split "010" raw_text
                         ∧ line = clean_text raw_line)
  ∧ education_lines (summary data) + experience_lines (summary data)
    ≤ length (Str.split "010" raw_text).
Proof.
  intros (_ & _ & _ & Hedu & Hexp & Hsum)%parse_resume_fields.
  rewrite Hsum, Hedu, Hexp. cbn [education_lines experience_lines].
  split.
  - intros line Hline.
    assert (Hin : line ∈ stripped_lines (clean_text_keep_lines raw_text)).
    { destruct Hline as [Hl|Hl].
      - by apply education_elem in Hl as [? _].
      - by apply experience_elem in Hl as [? _]. }
    rewrite stripped_lines_cleaned in Hin.
    apply list_elem_of_filter in Hin as [Hne Hin].
    apply list_elem_of_fmap in Hin as (raw_line & -> & Hraw).
    split; [|by exists raw_line]. intros Heq. by rewrite Heq in Hne.
  - unfold extract_sections. rewrite classify_filter. cbn [fst snd].
    pose proof (dedup_length
      (filter (fun l => goes_to_education l = true)
         (stripped_lines (clean_text_keep_lines raw_text)))) as H1.
    pose proof (dedup_length
      (filter (fun l => goes_to_experience l = true)
         (stripped_lines (clean_text_keep_lines raw_text)))) as H2.
    pose proof (filter_disjoint_length
      (fun l => goes_to_education l = true)
      (fun l => goes_to_experience l = true)
      (stripped_lines (clean_text_keep_lines raw_text))) as H3.
    rewrite stripped_lines_cleaned in *.
    pose proof (filter_length_le (fun ln => Str.nonempty ln = true)
      (map clean_text (Str.split "010" raw_text))) as H4.
    rewrite length_map in H4.
    assert (Hd : ∀ x, goes_to_education x = true →
                      goes_to_experience x = true → False).
    { intros x. unfold goes_to_education, goes_to_experience.
      intros [_ ->]%andb_true_iff. cbn [negb]. by rewrite andb_false_r. }
    specialize (H3 Hd). cbn [app]. lia.
Qed.

Lemma parsed_sections_from_raw_lines_witness :
  let raw :=
    ("  B.Tech   in CS " +:+ NEWLINE +:+ NEWLINE +:+ "Intern at  Acme")%string
  in
  ∃ data, parse_resume raw = Parsed data
          ∧ education_lines (summary data) + experience_lines (summary data)
            ≤ length (Str.split "010" raw).
Proof.
  intros raw.
  assert (Hparse : ∃ data, parse_resume raw = Parsed data)
    by (eexists; vm_compute; reflexivity).
  destruct Hparse as [data Hparse].
  exists data. split; [exact Hparse|].
  apply (proj2 (parsed_sections_from_raw_lines raw data Hparse)).
Defined.

(** The contact fields and the skills of a record depend on the words of
    the raw text only: two texts with the same words in the same order,
    however they are spaced and broken into lines, give the same contact
    information and the same skills. *)
Theorem flat_fields_depend_on_words (raw1 raw2 : string)
    (data1 data2 : parsed_data) :
  parse_resume raw1 = Parsed data1 → parse_resume raw2 = Parsed data2 →
  words raw1 = words raw2 →
  contact data1 = contact data2 ∧ skills data1 = skills data2.
Proof.
  intros (_ & Hc1 & Hs1 & _)%parse_resume_fields
         (_ & Hc2 & Hs2 & _)%parse_resume_fields Hwords.
  rewrite Hc1, Hc2, Hs1, Hs2.
  by rewrite (clean_text_words raw1), (clean_text_words raw2), Hwords.
Qed.

Lemma flat_fields_depend_on_words_witness :
  let raw1 := "python  developer,   a@b.io"%string in
  let raw2 := ("python" +:+ NEWLINE +:+ "developer, a@b.io ")%string in
  ∃ data1 data2,
    parse_resume raw1 = Parsed data1 ∧ parse_resume raw2 = Parsed data2
    ∧ contact data1 = contact data2 ∧ skills data1 = skills data2.
Proof.
  intros raw1 raw2.
  assert (H1 : ∃ data, parse_resume raw1 = Parsed data)
    by (eexists; vm_compute; reflexivity).
  assert (H2 : ∃ data, parse_resume raw2 = Parsed data)
    by (eexists; vm_compute; reflexivity).
  destruct H1 as [data1 H1]. destruct H2 as [data2 H2].
  exists data1, data2. split; [exact H1|]. split; [exact H2|].
  apply (flat_fields_depend_on_words raw1 raw2 data1 data2 H1 H2).
  vm_compute. reflexivity.
Defined.

Lemma words_blank (s : string) :
  all_chars Char.isspace s = true → words s = [].
Proof.
  induction s as [|c s IH]; [done|]. cbn [all_chars words].
  intros [-> Hs]%andb_true_iff. by apply IH.
Qed.

Lemma split_blank (s : string) :
  all_chars Char.isspace s = true →
  Forall (fun ln => all_chars Char.isspace ln = true) (Str.split "010" s).
Proof.
  induction s as [|c s IH]; [by repeat constructor|].
  cbn [all_chars Str.split]. intros [Hc Hs]%andb_true_iff.
  specialize (IH Hs). destruct (Ascii.eqb c "010"); [by constructor|].
  destruct (Str.split "010" s) as [|w ws].
  { constructor; [simpl; by rewrite Hc | constructor]. }
  inversion IH as [|? ? Hw Hws]; subst. constructor; [|done].
  simpl. by rewrite Hc, Hw.
Qed.

Lemma clean_text_blank (s : string) :
  all_chars Char.isspace s = true → clean_text s = ""%string.
Proof. intros Hs. by rewrite clean_text_words, words_blank. Qed.

Lemma clean_text_keep_lines_blank (s : string) :
  all_chars Char.isspace s = true → clean_text_keep_lines s = ""%string.
Proof.
  intros Hs%split_blank. rewrite clean_text_keep_lines_eq.
  induction Hs as [|ln lns Hln _ IH]; [done|].
  cbn [map]. rewrite filter_cons, (clean_text_blank ln) by done.
  by destruct (decide _).
Qed.

Lemma prefix_blank (c : ascii) (p s : string) :
  Char.isspace c = false → all_chars Char.isspace s = true →
  String.prefix (String c p) s = false.
Proof.
  intros Hc. destruct s as [|d s]; [done|]. cbn [all_chars String.prefix].
  intros [Hd _]%andb_true_iff.
  destruct (ascii_dec c d) as [->|]; [congruence | done].
Qed.

(** A raw text of whitespace only, the empty text among them, is no read
    error and gives the empty record: both contact fields are Not found,
    every list is empty, every count is zero, and the raw length is the
    length of the text. *)
Theorem parse_blank_text (raw_text : string) :
  all_chars Char.isspace raw_text = true →
  parse_resume raw_text
  = Parsed {|
      contact := {| contact_email := "Not found";
                    contact_phone := "Not found";
                    all_emails := []; all_phones := [] |};
      skills := []; education := []; experience := [];
      summary := {| total_skills_found := 0; education_lines := 0;
                    experience_lines := 0;
                    raw_text_length := String.length raw_text |} |}.
Proof.
  intros Hblank. unfold parse_resume, parse_resume_with.
  assert (Herr : is_read_error raw_text = false).
  { unfold is_read_error, READ_ERROR_PREFIXES, Str.startswith.
    cbn [existsb]. by rewrite !prefix_blank. }
  rewrite Herr, (clean_text_blank raw_text),
    (clean_text_keep_lines_blank raw_text) by done.
  vm_compute. reflexivity.
Qed.

Lemma parse_blank_text_witness :
  ∃ data, parse_resume (String "009" (" " +:+ NEWLINE)) = Parsed data
          ∧ raw_text_length (summary data) = 3 ∧ skills data = [].
Proof.
  eexists. split.
  - apply (parse_blank_text (String "009" (" " +:+ NEWLINE))). reflexivity.
  - split; reflexivity.
Defined.

End RecordFacts.

(** ** More on the skill search *)

Section SearchMore.
Import Search.

Lemma match_skill_name (cs pm : bool) (q s : string) (m : skill_match) :
  match_skill cs pm q s = Some m → Search.skill m = s.
Proof.
  unfold match_skill. destruct pm.
  - destruct (_ || _); [|done]. by intros [= <-].
  - destruct (String.eqb _ _); [|done]. by intros [= <-].
Qed.

Lemma omap_length {A B : Type} (f : A → option B) (l : list A) :
  length (omap f l) ≤ length l.
Proof.
  induction l as [|x l IH]; [done|].
  change (omap f (x :: l))
    with (match f x with Some y => y :: omap f l | None => omap f l end).
  destruct (f x); cbn [length]; lia.
Qed.

Lemma hit_of_fields (cs pm : bool) (q : string) (r : resume) (h : hit) :
  hit_of cs pm q r = Some h →
  error r = None ∧ file_info r = Some (file h)
  ∧ matched_skills h = matches_of cs pm q r
  ∧ matched_skills h ≠ []
  ∧ total_skills h = length (default [] (skills r))
  ∧ match_count h = length (matched_skills h).
Proof.
  unfold hit_of. destruct (error r); [done|].
  destruct (matches_of cs pm q r) as [|m ms]; [done|].
  destruct (file_info r); [|done]. by intros [= <-].
Qed.

(** For a non-empty query the result of the search holds exactly one entry
    for each record without an error that has a matching skill: it is a
    rearrangement of the entries of those records. *)
Theorem search_result_is_permutation (resumes : list resume) (skill : string)
    (cs pm : bool) (result : list hit) :
  skill ≠ ""%string →
  search_by_skill resumes skill cs pm = Returned result →
  result ≡ₚ hits_in_collection_order cs pm skill resumes
  ∧ length result ≤ length resumes.
Proof.
  intros Hskill ->%search_by_skill_hits; [|done].
  split; [apply stable_sort_perm|].
  rewrite stable_sort_perm. apply omap_length.
Qed.

(** Every entry of a search result is consistent: its match count is the
    number of its matched skills, it is at least one and at most the
    total number of skills of the record, and every matched skill is a
    skill of that record, under its original name. *)
Theorem search_hit_invariants (resumes : list resume) (skill : string)
    (cs pm : bool) (result : list hit) (h : hit) :
  search_by_skill resumes skill cs pm = Returned result →
  h ∈ result →
  match_count h = length (matched_skills h)
  ∧ 1 ≤ match_count h ∧ match_count h ≤ total_skills h
  ∧ ∃ r, r ∈ resumes ∧ error r = None
         ∧ file_info r = Some (file h)
         ∧ total_skills h = length (default [] (skills r))
         ∧ ∀ m, m ∈ matched_skills h →
                Search.skill m ∈ default [] (skills r).
Proof.
  intros Hres Hh.
  destruct (decide (skill = ""%string)) as [->|Hskill].
  { injection Hres as <-. by apply elem_of_nil in Hh. }
  apply search_by_skill_hits in Hres as ->; [|done].
  apply stable_sort_elem, list_elem_of_omap in Hh as (r & Hr & Hhit).
  apply hit_of_fields in Hhit
    as (Herr & Hfile & Hmatched & Hne & Htotal & Hcount).
  split_and!.
  - done.
  - rewrite Hcount. destruct (matched_skills h); [done | simpl; lia].
  - rewrite Hcount, Htotal, Hmatched. apply omap_length.
  - exists r. split_and!; try done.
    intros m Hm. rewrite Hmatched in Hm.
    apply list_elem_of_omap in Hm as (s & Hs & Hms).
    by rewrite (match_skill_name _ _ _ _ _ Hms).
Qed.

Lemma collect_raises (cs pm : bool) (q : string) (resumes : list resume) :
  ∀ matched,
    (∃ k, collect cs pm q resumes matched = KeyError k) ↔
    ∃ r, r ∈ resumes ∧ error r = None
         ∧ matches_of cs pm q r ≠ [] ∧ file_info r = None.
Proof.
  induction resumes as [|r0 resumes IH]; intros matched; cbn [collect].
  - split; [by intros [k ?] | by intros (r & ?%elem_of_nil & _)].
  - assert (Hskip : ¬ (error r0 = None ∧ matches_of cs pm q r0 ≠ []
                       ∧ file_info r0 = None) →
              ∀ matched',
                (∃ k, collect cs pm q resumes matched' = KeyError k) ↔
                ∃ r, r ∈ r0 :: resumes ∧ error r = None
                     ∧ matches_of cs pm q r ≠ [] ∧ file_info r = None).
    { intros Hgood matched'. rewrite IH. split.
      - intros (r & Hr & Hbad). exists r. split; [by right | done].
      - intros (r & [->|Hr]%elem_of_cons & Hbad); [done|]. by exists r. }
    destruct (error r0) as [e|] eqn:Herr.
    + apply Hskip. by intros [? _].
    + destruct (matches_of cs pm q r0) as [|m ms] eqn:Hm.
      * apply Hskip. by intros (_ & ? & _).
      * destruct (file_info r0) as [fi|] eqn:Hfi.
        -- apply Hskip. by intros (_ & _ & ?).
        -- split; [|by eauto]. intros _. exists r0.
           split_and!; [left | done | by rewrite Hm | done].
Qed.

Lemma collect_key (cs pm : bool) (q : string) (resumes : list resume) :
  ∀ matched k,
    collect cs pm q resumes matched = KeyError k → k = "file_info"%string.
Proof.
  induction resumes as [|r0 resumes IH]; intros matched k; cbn [collect];
    [done|].
  destruct (error r0); [apply IH|].
  destruct (matches_of cs pm q r0); [apply IH|].
  destruct (file_info r0); [apply IH|]. by intros [= <-].
Qed.

(** When the search fails: [search_by_skill] raises [KeyError], for the
    key file_info, exactly when the query is not empty and some record
    without an error has a matching skill but no file information.  A
    record without the skills key has no match and does not make it
    fail. *)
Theorem search_raises_iff (resumes : list resume) (skill : string)
    (cs pm : bool) :
  ((∃ k, search_by_skill resumes skill cs pm = KeyError k) ↔
   (skill ≠ ""%string
    ∧ ∃ r, r ∈ resumes ∧ error r = None
           ∧ matches_of cs pm (normalize_query cs skill) r ≠ []
           ∧ file_info r = None))
  ∧ (∀ k, search_by_skill resumes skill cs pm = KeyError k →
          k = "file_info"%string)
  ∧ (∀ r, skills r = None →
          matches_of cs pm (normalize_query cs skill) r = []).
Proof.
  split_and!.
  - unfold search_by_skill. destruct skill as [|c skill].
    { split; [by intros [k ?] | by intros [? _]]. }
    cbn [Str.nonempty negb orb]. case_bool_decide as Hres.
    { subst resumes. split; [by intros [k ?]|].
      by intros (_ & r & ?%elem_of_nil & _). }
    rewrite <- (collect_raises cs pm _ resumes []).
    destruct (collect cs pm _ resumes []) as [matched|k].
    + split; [by intros [k ?] | by intros (_ & k & ?)].
    + split; [intros _; split; [done | by exists k] | by exists k].
  - intros k. unfold search_by_skill.
    destruct (negb (Str.nonempty skill) || bool_decide (resumes = []));
      [done|].
    destruct (collect cs pm _ resumes []) as [matched|k'] eqn:Hc; [done|].
    intros [= <-]. by eapply collect_key.
  - intros r Hr. unfold matches_of. by rewrite Hr.
Qed.

Lemma search_raises_iff_witness :
  let r := {| error := None; skills := Some ["python"%string];
              file_info := None |} in
  ∃ k, search_by_skill [r] "py" false true = KeyError k.
Proof.
  intros r. apply (proj1 (search_raises_iff [r] "py" false true)).
  split; [done|]. exists r. split_and!; [constructor | done | done | done].
Defined.

Lemma search_hit_invariants_witness :
  let fi := {| name := "cv.pdf"; size_bytes := 10 |} in
  let r := {| error := None; skills := Some ["python"; "java"]%string;
              file_info := Some fi |} in
  let h := {| file := fi;
              matched_skills :=
                [{| Search.skill := "python"; match_type := partial |}];
              total_skills := 2; match_count := 1 |} in
  match_count h = length (matched_skills h)
  ∧ 1 ≤ match_count h ∧ match_count h ≤ total_skills h
  ∧ ∃ r', r' ∈ [r] ∧ error r' = None
          ∧ file_info r' = Some (file h)
          ∧ total_skills h = length (default [] (skills r'))
          ∧ ∀ m, m ∈ matched_skills h →
                 Search.skill m ∈ default [] (skills r').
Proof.
  intros fi r h.
  apply (search_hit_invariants [r] "Py" false true [h] h).
  - reflexivity.
  - constructor.
Defined.

Lemma search_result_is_permutation_witness :
  let fi := {| name := "cv.pdf"; size_bytes := 10 |} in
  let r := {| error := None; skills := Some ["python"; "java"]%string;
              file_info := Some fi |} in
  let h := {| file := fi;
              matched_skills :=
                [{| Search.skill := "python"; match_type := partial |}];
              total_skills := 2; match_count := 1 |} in
  [h] ≡ₚ hits_in_collection_order false true "Py" [r]
  ∧ length [h] ≤ length [r].
Proof.
  intros fi r h.
  apply (search_result_is_permutation [r] "Py" false true [h]).
  - done.
  - reflexivity.
Defined.

Lemma contains_refl (s : string) : Str.contains s s = true.
Proof.
  apply contains_spec. exists ""%string, ""%string.
  by rewrite append_nil_l, append_empty_r.
Qed.

Lemma exact_is_partial (cs : bool) (q s : string) (m : skill_match) :
  match_skill cs false q s = Some m → match_skill cs true q s = Some m.
Proof.
  unfold match_skill.
  destruct (String.eqb_spec q (if cs then s else Str.lower s)) as [<-|];
    [|done].
  intros [= <-]. by rewrite contains_refl, Nat.ltb_irrefl.
Qed.

Lemma omap_sub {A B : Type} (f g : A → option B) (l : list A) :
  (∀ x y, f x = Some y → g x = Some y) →
  length (omap f l) ≤ length (omap g l)
  ∧ ∀ y, y ∈ omap f l → y ∈ omap g l.
Proof.
  intros Hfg. split.
  - induction l as [|x l IH]; [done|].
    change (omap f (x :: l))
      with (match f x with Some y => y :: omap f l | None => omap f l end).
    change (omap g (x :: l))
      with (match g x with Some y => y :: omap g l | None => omap g l end).
    destruct (f x) as [y|] eqn:Hf.
    + rewrite (Hfg x y Hf). cbn [length]. lia.
    + destruct (g x); cbn [length]; lia.
  - intros y (x & Hx & Hy)%list_elem_of_omap.
    apply list_elem_of_omap. exists x. split; [done | by apply Hfg].
Qed.

(** Partial matching finds whatever exact matching finds: a skill matched
    with [partial_match] unset is matched, as an exact match, with
    [partial_match] set; so a record reported by the exact search is
    reported by the partial search with at least as many matches. *)
Theorem exact_search_within_partial (cs : bool) (q : string) :
  (∀ s m, match_skill cs false q s = Some m →
          match_skill cs true q s = Some m ∧ match_type m = exact)
  ∧ (∀ r h, hit_of cs false q r = Some h →
            ∃ h', hit_of cs true q r = Some h'
                  ∧ file h' = file h
                  ∧ match_count h ≤ match_count h'
                  ∧ ∀ m, m ∈ matched_skills h → m ∈ matched_skills h').
Proof.
  split.
  - intros s m Hm. split; [by apply exact_is_partial|].
    unfold match_skill in Hm. destruct (String.eqb _ _); [|done].
    by injection Hm as <-.
  - intros r h. unfold hit_of. destruct (error r); [done|].
    destruct (omap_sub (match_skill cs false q) (match_skill cs true q)
                (default [] (skills r)) (exact_is_partial cs q))
      as [Hlen Hsub].
    fold (matches_of cs false q r) in Hlen, Hsub.
    fold (matches_of cs true q r) in Hlen, Hsub.
    destruct (matches_of cs false q r) as [|m ms]; [done|].
    destruct (matches_of cs true q r) as [|m' ms']; [simpl in Hlen; lia|].
    destruct (file_info r) as [fi|]; [|done].
    intros [= <-]. eexists. split; [done|]. by split_and!.
Qed.

Lemma exact_search_within_partial_witness :
  match_skill false true "python" "Python"
  = Some {| Search.skill := "Python"; match_type := exact |}
  ∧ match_type {| Search.skill := "Python"; match_type := exact |} = exact.
Proof.
  apply (proj1 (exact_search_within_partial false "python") "Python"%string).
  reflexivity.
Defined.

Lemma isspace_lower (c : ascii) : Char.isspace (Char.lower c) = Char.isspace c.
Proof. destruct c as [[] [] [] [] [] [] [] []]; vm_compute; reflexivity. Qed.

Lemma lower_idempotent (s : string) : Str.lower (Str.lower s) = Str.lower s.
Proof.
  induction s as [|c s IH]; [done|]. simpl. by rewrite lower_lower, IH.
Qed.

Lemma lstrip_lower (s : string) :
  Str.lstrip (Str.lower s) = Str.lower (Str.lstrip s).
Proof.
  induction s as [|c s IH]; [done|]. cbn [Str.lower Str.lstrip].
  rewrite isspace_lower. by destruct (Char.isspace c).
Qed.

Lemma rstrip_lower (s : string) :
  Str.rstrip (Str.lower s) = Str.lower (Str.rstrip s).
Proof.
  induction s as [|c s IH]; [done|]. cbn [Str.lower Str.rstrip].
  rewrite IH, isspace_lower.
  destruct (Str.rstrip s); [by destruct (Char.isspace c) | done].
Qed.

Lemma strip_lower (s : string) :
  Str.strip (Str.lower s) = Str.lower (Str.strip s).
Proof. unfold Str.strip. by rewrite lstrip_lower, rstrip_lower. Qed.

(** With [case_sensitive] unset the search does not depend on the letter
    case of the query, nor on whitespace around it as long as the query
    is not blank: the lower-cased query and the stripped query give the
    same outcome. *)
Theorem search_ignores_query_case_and_margin (resumes : list resume)
    (skill : string) (pm : bool) :
  search_by_skill resumes (Str.lower skill) false pm
  = search_by_skill resumes skill false pm
  ∧ (Str.strip skill ≠ ""%string →
     search_by_skill resumes (Str.strip skill) false pm
     = search_by_skill resumes skill false pm).
Proof.
  split.
  - unfold search_by_skill, normalize_query. rewrite lower_idempotent.
    by destruct skill.
  - intros Hstrip. unfold search_by_skill, normalize_query.
    rewrite <- strip_lower, strip_idempotent, strip_lower.
    destruct (Str.strip skill) eqn:Hs; [done|]. by destruct skill.
Qed.

Lemma search_ignores_query_case_and_margin_witness :
  let r := {| error := None; skills := Some ["python"%string];
              file_info := Some {| name := "cv.pdf"; size_bytes := 1 |} |} in
  search_by_skill [r] (Str.strip " PY ") false true
  = search_by_skill [r] " PY " false true.
Proof.
  intros r.
  apply (proj2 (search_ignores_query_case_and_margin [r] " PY " true)).
  done.
Defined.

Lemma lstrip_blank (s : string) :
  all_chars Char.isspace s = true → Str.lstrip s = ""%string.
Proof.
  induction s as [|c s IH]; [done|]. cbn [all_chars Str.lstrip].
  intros [-> Hs]%andb_true_iff. by apply IH.
Qed.

Lemma all_chars_lower_space (s : string) :
  all_chars Char.isspace (Str.lower s) = all_chars Char.isspace s.
Proof.
  induction s as [|c s IH]; [done|]. simpl. by rewrite isspace_lower, IH.
Qed.

Lemma contains_empty (s : string) : Str.contains "" s = true.
Proof. by destruct s. Qed.

Lemma match_skill_blank (s : string) :
  ∃ k, match_skill false true "" s
       = Some {| Search.skill := s; match_type := k |}.
Proof. unfold match_skill. rewrite contains_empty. cbn [orb]. eauto. Qed.

Lemma omap_match_blank (l : list string) :
  map Search.skill (omap (match_skill false true "") l) = l
  ∧ length (omap (match_skill false true "") l) = length l.
Proof.
  induction l as [|s l [IH1 IH2]]; [done|].
  change (omap (match_skill false true "") (s :: l))
    with (match match_skill false true "" s with
          | Some y => y :: omap (match_skill false true "") l
          | None => omap (match_skill false true "") l
          end).
  destruct (match_skill_blank s) as [k ->].
  cbn [map length Search.skill]. by rewrite IH1, IH2.
Qed.

Lemma matches_of_blank (l : list string) (r : resume) :
  skills r = Some l →
  map Search.skill (matches_of false true "" r) = l
  ∧ length (matches_of false true "" r) = length l.
Proof.
  intros Hr. unfold matches_of. rewrite Hr. cbn [default].
  apply omap_match_blank.
Qed.

(** A blank query is not an empty query.  With the default flags a query
    of whitespace only, which is not the empty string, is normalized to
    the empty string and then matches every skill: each record without
    an error that has a skill is reported with all of its skills
    matched. *)
Theorem blank_query_matches_everything (resumes : list resume)
    (skill : string) (r : resume) (l : list string) (fi : file_identity) :
  skill ≠ ""%string → all_chars Char.isspace skill = true →
  (∀ r', r' ∈ resumes → error r' = None → is_Some (file_info r')) →
  r ∈ resumes → error r = None → skills r = Some l → l ≠ [] →
  file_info r = Some fi →
  ∃ result h,
    search_by_skill resumes skill false true = Returned result
    ∧ h ∈ result ∧ file h = fi
    ∧ map Search.skill (matched_skills h) = l
    ∧ match_count h = length l ∧ total_skills h = length l.
Proof.
  intros Hne Hblank Hinfo Hr Herr Hskills Hl Hfi.
  assert (Hq : normalize_query false skill = ""%string).
  { unfold normalize_query, Str.strip.
    by rewrite lstrip_blank by (by rewrite all_chars_lower_space). }
  destruct (matches_of_blank l r Hskills) as [Hnames Hlen].
  assert (Hhit : ∃ h, hit_of false true "" r = Some h ∧ file h = fi
                      ∧ map Search.skill (matched_skills h) = l
                      ∧ match_count h = length l ∧ total_skills h = length l).
  { unfold hit_of. rewrite Herr, Hfi.
    destruct (matches_of false true "" r) as [|m ms] eqn:Hm.
    - destruct l; [done | discriminate Hlen].
    - eexists. split; [done|]. cbn. by rewrite Hskills. }
  destruct Hhit as (h & Hh & Hrest).
  unfold search_by_skill. destruct skill as [|c skill]; [done|].
  cbn [Str.nonempty negb orb].
  rewrite bool_decide_false by (by intros ->; apply elem_of_nil in Hr).
  rewrite Hq.
  destruct (collect_returns false true "" resumes Hinfo []) as [matched Hc].
  rewrite Hc. apply collect_hits in Hc as ->.
  eexists _, h. split; [done|]. split; [|done].
  apply stable_sort_elem, list_elem_of_omap. by exists r.
Qed.

Lemma blank_query_matches_everything_witness :
  let fi := {| name := "cv.pdf"; size_bytes := 1 |} in
  let r := {| error := None; skills := Some ["python"; "sql"]%string;
              file_info := Some fi |} in
  ∃ result h,
    search_by_skill [r] " " false true = Returned result
    ∧ h ∈ result ∧ file h = fi
    ∧ map Search.skill (matched_skills h) = ["python"; "sql"]%string
    ∧ match_count h = 2 ∧ total_skills h = 2.
Proof.
  intros fi r.
  apply (blank_query_matches_everything [r] " " r ["python"; "sql"]%string fi);
    try done.
  - intros r' Hr' _. apply list_elem_of_singleton in Hr' as ->. by eexists.
  - constructor.
Defined.

End SearchMore.
